(** * Skill-portability pipeline (04_skill_portability.py)

    A shallow embedding of the two-step estimation script and the
    properties its specification states about it.

    Numbers.  The script computes with IEEE doubles through numpy and
    pandas.  Here a finite double is an exact rational ([Q]); rounding,
    overflow and signed zeros are left out, while the special values the
    script can really produce (a division by zero, the minimum of an empty
    column, the logarithm of zero) are kept as [PInf], [NInf] and [NaN].
    A demeaned column is stored in lowest terms ([Qred]), which does not
    change the numbers it holds.

    Effects.  Python exceptions, the process-wide warning filter installed
    at import time and the banner every stage prints on entry are threaded
    through a small state-and-error monad. *)

From Stdlib Require Import String ZArith QArith Qabs List Bool Lia Lqa Psatz.
From Stdlib Require Import FMapPositive.
Import ListNotations.

Local Open Scope Q_scope.

(** ** Floating-point values *)

Inductive fval : Type :=
| Fin (q : Q)
| PInf
| NInf
| NaN.

Definition Qltb (a b : Q) : bool := negb (Qle_bool b a).

Module Float.


Definition neg (x : fval) : fval :=
  match x with
  | Fin q => Fin (- q)
  | PInf => NInf
  | NInf => PInf
  | NaN => NaN
  end.

Definition add (x y : fval) : fval :=
  match x, y with
  | NaN, _ | _, NaN => NaN
  | Fin a, Fin b => Fin (a + b)
  | PInf, NInf | NInf, PInf => NaN
  | PInf, _ | _, PInf => PInf
  | NInf, _ | _, NInf => NInf
  end.

Definition sub (x y : fval) : fval := add x (neg y).

(** The sign of a finite or infinite value: [Gt], [Lt], or [Eq] at zero. *)
Definition sign (x : fval) : option comparison :=
  match x with
  | Fin q => Some (q ?= 0)
  | PInf => Some Gt
  | NInf => Some Lt
  | NaN => None
  end.

Definition signed_inf (s t : comparison) : fval :=
  match s, t with
  | Gt, Gt | Lt, Lt => PInf
  | Gt, Lt | Lt, Gt => NInf
  | _, _ => NaN
  end.

Definition mul (x y : fval) : fval :=
  match x, y with
  | Fin a, Fin b => Fin (a * b)
  | _, _ =>
      match sign x, sign y with
      | Some s, Some t => signed_inf s t
      | _, _ => NaN
      end
  end.

(** [x / 0] is an infinity of the sign of [x], and [0 / 0] is [NaN]:
    numpy reports both with a warning, never with an exception. *)
Definition div (x y : fval) : fval :=
  match x, y with
  | NaN, _ | _, NaN => NaN
  | Fin a, Fin b =>
      if Qeq_bool b 0 then signed_inf (a ?= 0) Gt else Fin (a / b)
  | Fin _, _ => Fin 0
  | _, Fin b => match sign x with
                | Some s => signed_inf s (if Qeq_bool b 0 then Gt else b ?= 0)
                | None => NaN
                end
  | _, _ => NaN
  end.

(** Comparisons are false as soon as one side is [NaN]. *)
Definition eqb (x y : fval) : bool :=
  match x, y with
  | Fin a, Fin b => Qeq_bool a b
  | PInf, PInf | NInf, NInf => true
  | _, _ => false
  end.

Definition ltb (x y : fval) : bool :=
  match x, y with
  | Fin a, Fin b => Qltb a b
  | NInf, Fin _ | NInf, PInf | Fin _, PInf => true
  | _, _ => false
  end.


(** Equality of the numbers denoted. *)
Definition feq (x y : fval) : Prop :=
  match x, y with
  | Fin a, Fin b => a == b
  | PInf, PInf | NInf, NInf | NaN, NaN => True
  | _, _ => False
  end.

End Float.

(** ** Python effects *)

Inductive outcome (A : Type) : Type :=
| Returned (a : A)
| Raised (exn : string).
Arguments Returned {A} a.
Arguments Raised {A} exn.

Inductive filter_action : Type := ActionDefault | ActionIgnore.

Record pystate : Type := mk_pystate {
  warn_filter : filter_action;   (* head of warnings.filters *)
  shown_warnings : list string;  (* what the warnings module lets through *)
  stdout : list string           (* stage banners, oldest first *)
}.

Definition py (A : Type) : Type := pystate -> outcome A * pystate.

Module Py.

Definition ret {A} (a : A) : py A := fun s => (Returned a, s).

Definition bind {A B} (m : py A) (k : A -> py B) : py B :=
  fun s => match m s with
           | (Returned a, s') => k a s'
           | (Raised e, s') => (Raised e, s')
           end.

Definition raise {A} (e : string) : py A := fun s => (Raised e, s).

Definition print (line : string) : py unit :=
  fun s => (Returned tt,
            mk_pystate (warn_filter s) (shown_warnings s) (stdout s ++ [line])).

(** [warnings.filterwarnings(action)] with no category: every later
    warning takes [action]. *)
Definition filterwarnings (a : filter_action) : py unit :=
  fun s => (Returned tt, mk_pystate a (shown_warnings s) (stdout s)).

(** [warnings.warn]: shown unless the filter says ignore. *)
Definition warn (w : string) : py unit :=
  fun s => (Returned tt,
            match warn_filter s with
            | ActionIgnore => s
            | ActionDefault =>
                mk_pystate (warn_filter s) (shown_warnings s ++ [w]) (stdout s)
            end).

End Py.

Declare Scope py_scope.
Delimit Scope py_scope with py.
Notation "x <- m ;; k" := (Py.bind m (fun x => k))
  (at level 61, m at next level, right associativity) : py_scope.
Notation "m ;;; k" := (Py.bind m (fun _ => k))
  (at level 61, right associativity) : py_scope.

(** The interpreter state when [main] starts: the module body has run
    [warnings.filterwarnings("ignore")] (line 20) and nothing was printed. *)
Definition fresh_interpreter : pystate := mk_pystate ActionDefault [] [].

Definition module_import : py unit := Py.filterwarnings ActionIgnore.

Definition at_main : pystate := snd (module_import fresh_interpreter).

(** The line each stage prints on entry. *)
Definition banner_build : string := "Building switching regression data...".
Definition banner_step1 : string :=
  "Step 1: OLS residualization on occupation FE...".
Definition banner_step2 : string := "Step 2: Random Forest on skill vectors...".
Definition banner_aggregate : string :=
  "Computing aggregate skill portability by occupation...".

(** ** numpy and pandas reductions *)

Definition qsum (l : list Q) : Q := fold_right Qplus 0 l.

Definition qlen {A} (l : list A) : Q := inject_Z (Z.of_nat (length l)).

Definition qmin (a b : Q) : Q := if Qle_bool a b then a else b.
Definition qmax (a b : Q) : Q := if Qle_bool a b then b else a.

(** [Series.min()] and [Series.max()]: [NaN] on an empty column. *)
Definition series_min (l : list Q) : fval :=
  match l with
  | [] => NaN
  | x :: t => Fin (fold_left qmin t x)
  end.

Definition series_max (l : list Q) : fval :=
  match l with
  | [] => NaN
  | x :: t => Fin (fold_left qmax t x)
  end.

(** [np.max] of an array: a zero-size array has no maximum and numpy
    raises [ValueError]. *)
Definition np_max (l : list Q) : py Q :=
  match l with
  | [] => Py.raise "ValueError"%string
  | x :: t => Py.ret (fold_left qmax t x)
  end.

(** [ndarray.mean()]: the mean of an empty array is [NaN], reported as a
    RuntimeWarning. *)
Definition np_mean (l : list Q) : py fval :=
  match l with
  | [] => (Py.warn "RuntimeWarning: Mean of empty slice." ;;; Py.ret NaN)%py
  | _ => Py.ret (Fin (qsum l / qlen l))
  end.

(** Division of two numpy scalars: a zero divisor is reported as a
    RuntimeWarning and the quotient is an infinity or [NaN]. *)
Definition np_divide (a b : Q) : py fval :=
  if Qeq_bool b 0
  then (Py.warn "RuntimeWarning: invalid value encountered in scalar divide" ;;;
        Py.ret (Float.div (Fin a) (Fin b)))%py
  else Py.ret (Float.div (Fin a) (Fin b)).

Fixpoint filter_map {A B} (f : A -> option B) (l : list A) : list B :=
  match l with
  | [] => []
  | x :: t => match f x with
              | Some y => y :: filter_map f t
              | None => filter_map f t
              end
  end.

(** ** Input tables *)

(** cps_switching_matrix.csv *)
Record switch_row : Type := mk_switch {
  occ_origin : Z;
  occ_dest : Z;
  weighted_switches : Q
}.

(** cps_stayer_counts.csv *)
Record stayer_row : Type := mk_stayer {
  occ : Z;
  weighted_stayers : Q
}.

(** skill_matrix_by_occ2010.csv: the index column and the skill columns. *)
Record skill_row : Type := mk_skill {
  skill_occ : Z;
  skill_values : list Q
}.

(** cps_employment_changes.csv, the two columns the aggregator reads. *)
Record emp_row : Type := mk_emp {
  emp_occ : Z;
  emp_pre : Q
}.

(** A row of the frame [switches.merge(stayers, ...)]: the left row next to
    the right row it matched. *)
Definition merged_row : Type := (switch_row * stayer_row)%type.

(** A row of the frame the builder returns; [log_share] is the
    [log_switch_share] column, finite on every row that is kept. *)
Record pair_obs : Type := mk_pair {
  origin : Z;
  dest : Z;
  switches_w : Q;
  stayers_w : Q;
  log_share : Q
}.

(** ** Feature/target builder: [build_switching_regression_data] *)

Section Builder.

(** [np.log] on a positive finite double returns a finite double; it is
    kept abstract. *)
Variable ln : Q -> Q.

Definition np_log (x : fval) : fval :=
  match x with
  | Fin q => if Qltb 0 q then Fin (ln q)
             else if Qeq_bool q 0 then NInf else NaN
  | PInf => PInf
  | NInf | NaN => NaN
  end.

Definition isin (s : list Z) (x : Z) : bool := existsb (Z.eqb x) s.

Definition skill_occs (skills : list skill_row) : list Z :=
  map skill_occ skills.

(** Lines 51-55. *)
Definition filter_switches (skills : list skill_row)
    (switches : list switch_row) : list switch_row :=
  filter (fun r => isin (skill_occs skills) (occ_origin r)
                   && isin (skill_occs skills) (occ_dest r)) switches.

Definition filter_stayers (skills : list skill_row)
    (stayers : list stayer_row) : list stayer_row :=
  filter (fun r => isin (skill_occs skills) (occ r)) stayers.

(** Lines 58-60: inner join on [occ_origin = occ], in the order of the
    left frame. *)
Definition merge (switches : list switch_row) (stayers : list stayer_row)
  : list merged_row :=
  flat_map (fun s =>
              map (fun t => (s, t))
                  (filter (fun t => (occ t =? occ_origin s)%Z) stayers))
           switches.

(** Lines 64-66. *)
Definition min_nonzero (merged : list merged_row) : fval :=
  series_min (filter (Qltb 0) (map (fun r => weighted_switches (fst r)) merged)).

(** Lines 68-69. *)
Definition raw_share (r : merged_row) : fval :=
  Float.div (Fin (weighted_switches (fst r))) (Fin (weighted_stayers (snd r))).

Definition switch_share (floor : fval) (r : merged_row) : fval :=
  if Float.eqb (raw_share r) (Fin 0)
  then Float.div floor (Fin (weighted_stayers (snd r)))
  else raw_share r.

(** Line 70. *)
Definition log_switch_share (floor : fval) (r : merged_row) : fval :=
  np_log (switch_share floor r).

Definition merged_table (skills : list skill_row)
    (switches : list switch_row) (stayers : list stayer_row)
  : list merged_row :=
  merge (filter_switches skills switches) (filter_stayers skills stayers).

(** Line 73. *)
Definition not_self_pair (r : merged_row) : bool :=
  negb (occ_origin (fst r) =? occ_dest (fst r))%Z.

(** Line 74. *)
Definition keep_finite (floor : fval) (r : merged_row) : option pair_obs :=
  match log_switch_share floor r with
  | Fin y => Some (mk_pair (occ_origin (fst r)) (occ_dest (fst r))
                           (weighted_switches (fst r))
                           (weighted_stayers (snd r)) y)
  | _ => None
  end.

Definition regression_rows (skills : list skill_row)
    (switches : list switch_row) (stayers : list stayer_row)
  : list pair_obs :=
  let merged := merged_table skills switches stayers in
  let floor := min_nonzero merged in
  filter_map (keep_finite floor) (filter not_self_pair merged).

Definition build_switching_regression_data (skills : list skill_row)
    (switches : list switch_row) (stayers : list stayer_row)
  : py (list pair_obs * list skill_row) :=
  (Py.print banner_build ;;;
   Py.ret (regression_rows skills switches stayers, skills))%py.

End Builder.

(** ** Fixed-effect residualizer: [step1_ols_residualize] *)

Section GroupBy.

Context {A : Type}.
Variable key : A -> Z.

Definition in_group (k : Z) (p : A * Q) : bool := (key (fst p) =? k)%Z.

(** The values of the rows whose key is [k]. *)
Definition group (l : list (A * Q)) (k : Z) : list Q :=
  map snd (filter (in_group k) l).

Definition group_mean (l : list (A * Q)) (k : Z) : Q :=
  qsum (group l k) / qlen (group l k).

(** [Series(values).groupby(key).transform("mean")] *)
Definition transform_mean (l : list (A * Q)) : list Q :=
  map (fun p => group_mean l (key (fst p))) l.

(** [values - Series(values).groupby(key).transform("mean").values] *)
Definition demean (l : list (A * Q)) : list (A * Q) :=
  map (fun p => (fst p, Qred (snd p - group_mean l (key (fst p))))) l.

End GroupBy.

Definition tolerance : Q := 1 # 10000000000.






Definition iteration_cap : nat := 50.

(** *** Group means by one tally

    The same group means computed from one pass over the column, which
    keeps the running sum and count of every key.  It is only used to run
    large tables. *)


Section Tally.

Context {A : Type}.
Variable key : A -> Z.





End Tally.


(** One pass of the loop body, lines 105-114. *)
Definition sweep (residuals : list (pair_obs * Q)) : list (pair_obs * Q) :=
  demean dest (demean origin residuals).

(** [np.max(np.abs(residuals - residuals_old))] *)
Definition max_abs_change (residuals residuals_old : list (pair_obs * Q))
  : py Q :=
  np_max (map (fun p => Qabs (snd (fst p) - snd (snd p)))
              (combine residuals residuals_old)).

(** How the [for] loop of lines 103-118 ended.  The script does not keep
    this; it is recorded here so that statements can refer to it. *)
Inductive loop_exit : Type := Break | Exhausted.

(** Lines 103-118; a [break] ends the recursion early. *)
Fixpoint demean_loop (n : nat) (residuals : list (pair_obs * Q))
  : py (list (pair_obs * Q) * loop_exit) :=
  match n with
  | O => Py.ret (residuals, Exhausted)
  | S n' =>
      let residuals_old := residuals in
      let residuals := sweep residuals_old in
      (change <- max_abs_change residuals residuals_old ;;
       if Qltb change tolerance then Py.ret (residuals, Break)
       else demean_loop n' residuals)%py
  end.


Definition sq (x : Q) : Q := x * x.

Definition y_mean (y : list Q) : Q := qsum y / qlen y.

Definition ss_total (y : list Q) : Q :=
  qsum (map (fun v => sq (v - y_mean y)) y).

Definition ss_resid {A} (residuals : list (A * Q)) : Q :=
  qsum (map (fun p => sq (snd p)) residuals).

(** Lines 91-131.  The group means of lines 97-98 are never read and are
    left out; the returned frame is the input frame with its [residual]
    column, and the second component is [r2_fe]. *)
Definition step1_ols_residualize (switches : list pair_obs)
  : py (list (pair_obs * Q) * fval) :=
  (Py.print banner_step1 ;;;
   let y := map log_share switches in
   grand_mean <- np_mean y ;;
   looped <- demean_loop iteration_cap (combine switches y) ;;
   let residuals := fst looped in
   q <- np_divide (ss_resid residuals) (ss_total y) ;;
   let r2_fe := Float.sub (Fin 1) q in
   Py.ret (residuals, r2_fe))%py.

(** ** Portability learner: [step2_random_forest] *)

(** A row of the frame after step 2. *)
Record scored_pair : Type := mk_scored {
  obs : pair_obs;
  residual : Q;
  predicted_skill_portability : Q
}.

Section Learner.

(** scikit-learn's forest (cross-validation, fit, in-sample prediction
    and feature importances, lines 169-197) is outside the script: it is
    a parameter taking the feature matrix and the target and giving the
    predictions and the importances, or raising. *)
Variable random_forest : list (list Q) -> list Q -> py (list Q * list Q).

(** [skills.loc[label]] on the unique index written by the crosswalk
    step: [KeyError] for a label that is not in the index. *)
Definition skills_loc (skills : list skill_row) (label : Z) : py (list Q) :=
  match find (fun r => (skill_occ r =? label)%Z) skills with
  | Some r => Py.ret (skill_values r)
  | None => Py.raise "KeyError"
  end.

Fixpoint py_map {A B} (f : A -> py B) (l : list A) : py (list B) :=
  match l with
  | [] => Py.ret []
  | x :: t => (y <- f x ;; ys <- py_map f t ;; Py.ret (y :: ys))%py
  end.

Definition vec_sub (a b : list Q) : list Q :=
  map (fun p => fst p - snd p) (combine a b).

Definition step2_random_forest (switches : list (pair_obs * Q))
    (skills : list skill_row) : py (list scored_pair * list Q) :=
  (Py.print banner_step2 ;;;
   origin_skills <- py_map (fun p => skills_loc skills (origin (fst p))) switches ;;
   dest_skills <- py_map (fun p => skills_loc skills (dest (fst p))) switches ;;
   let X := map (fun p => fst p ++ snd p ++ vec_sub (fst p) (snd p))
                (combine origin_skills dest_skills) in
   let y := map snd switches in
   fitted <- random_forest X y ;;
   Py.ret (map (fun p => mk_scored (fst (fst p)) (snd (fst p)) (snd p))
               (combine switches (fst fitted)),
           snd fitted))%py.

End Learner.

(** ** Aggregator: [compute_aggregate_portability] *)

(** A Python [dict] with integer keys: bindings in insertion order, one per
    key; storing to a key that is present overwrites in place. *)
Module Dict.

Definition t (V : Type) : Type := list (Z * V).

Fixpoint set {V} (d : t V) (k : Z) (v : V) : t V :=
  match d with
  | [] => [(k, v)]
  | (k', v') :: rest =>
      if (k' =? k)%Z then (k, v) :: rest else (k', v') :: set rest k v
  end.

Fixpoint get {V} (d : t V) (k : Z) (default : V) : V :=
  match d with
  | [] => default
  | (k', v') :: rest => if (k' =? k)%Z then v' else get rest k default
  end.

(** [dict(zip(keys, values))] *)
Definition of_pairs {V} (l : list (Z * V)) : t V :=
  fold_left (fun d kv => set d (fst kv) (snd kv)) l [].

Definition keys {V} (d : t V) : list Z := map fst d.

End Dict.

(** The keys of a [groupby], each once and in increasing order. *)
Fixpoint insert_key (k : Z) (l : list Z) : list Z :=
  match l with
  | [] => [k]
  | x :: t => if (k <? x)%Z then k :: l
              else if (k =? x)%Z then l
              else x :: insert_key k t
  end.

Definition group_keys (l : list Z) : list Z := fold_right insert_key [] l.

(** A row of [port]: lines 218-222. *)
Record port_row : Type := mk_port {
  port_origin : Z;
  port_dest : Z;
  port_predicted : Q;
  portability_norm : fval
}.

(** A row of [agg_df] after the join of line 248. *)
Record agg_row : Type := mk_agg {
  occ2010 : Z;
  aggregate_portability : fval;
  mean_pairwise_portability : fval
}.

Definition emp_map (emp : list emp_row) : Dict.t Q :=
  Dict.of_pairs (map (fun r => (emp_occ r, emp_pre r)) emp).

(** Lines 218-222. *)
Definition normalize (switches : list scored_pair) : list port_row :=
  let col := map predicted_skill_portability switches in
  let lo := series_min col in
  let hi := series_max col in
  map (fun r =>
         mk_port (origin (obs r)) (dest (obs r)) (predicted_skill_portability r)
                 (Float.div (Float.sub (Fin (predicted_skill_portability r)) lo)
                            (Float.sub hi lo)))
      switches.

Definition rows_of_origin (port : list port_row) (o : Z) : list port_row :=
  filter (fun r => (port_origin r =? o)%Z) port.

(** Lines 227-233: the two accumulators after the inner loop. *)
Definition weigh (emp : Dict.t Q) (acc : fval * Q) (row : port_row)
  : fval * Q :=
  let emp_d := Dict.get emp (port_dest row) 0 in
  (Float.add (fst acc) (Float.mul (portability_norm row) (Fin emp_d)),
   snd acc + emp_d).

Definition accumulate (emp : Dict.t Q) (group : list port_row) : fval * Q :=
  fold_left (weigh emp) group (Fin 0, 0).

(** [total_weight] and [weighted_port / total_weight] of one origin. *)
Definition total_weight (emp : Dict.t Q) (port : list port_row) (o : Z) : Q :=
  snd (accumulate emp (rows_of_origin port o)).

Definition weighted_mean (emp : Dict.t Q) (port : list port_row) (o : Z)
  : fval :=
  Float.div (fst (accumulate emp (rows_of_origin port o)))
            (Fin (total_weight emp port o)).

(** Lines 225-236. *)
Definition agg_step (emp : Dict.t Q) (port : list port_row)
    (agg_port : Dict.t fval) (occ_o : Z) : Dict.t fval :=
  let acc := accumulate emp (rows_of_origin port occ_o) in
  let weighted_port := fst acc in
  let total_weight := snd acc in
  if Qltb 0 total_weight
  then Dict.set agg_port occ_o (Float.div weighted_port (Fin total_weight))
  else agg_port.

Definition agg_port_of (emp : Dict.t Q) (port : list port_row) : Dict.t fval :=
  fold_left (agg_step emp port) (group_keys (map port_origin port)) [].

(** [Series.mean()] within a group: missing values are skipped and a group
    of missing values has a missing mean. *)
Definition nan_mean (l : list fval) : fval :=
  let present := filter (fun x => match x with NaN => false | _ => true end) l in
  match present with
  | [] => NaN
  | _ => Float.div (fold_left Float.add present (Fin 0)) (Fin (qlen present))
  end.

Definition mean_port (port : list port_row) (o : Z) : fval :=
  nan_mean (map portability_norm (rows_of_origin port o)).

(** Lines 211-248.  The join with the titles, the sort and the console
    listing that follow do not add or drop an occupation and are left out. *)
Definition compute_aggregate_portability (switches : list scored_pair)
    (emp : list emp_row) : py (list agg_row * list port_row) :=
  (Py.print banner_aggregate ;;;
   let port := normalize switches in
   let agg_port := agg_port_of (emp_map emp) port in
   let agg_df := map (fun kv => mk_agg (fst kv) (snd kv) (mean_port port (fst kv)))
                     agg_port in
   Py.ret (agg_df, port))%py.

(** ** The pipeline: [main] *)

Section Main.

Variable ln : Q -> Q.
Variable random_forest : list (list Q) -> list Q -> py (list Q * list Q).

Record outputs : Type := mk_outputs {
  pairwise_skill_portability : list scored_pair;
  aggregate_skill_portability : list agg_row;
  rf_feature_importances : list Q;
  fe_r2 : fval
}.

Definition main (skills : list skill_row) (switches : list switch_row)
    (stayers : list stayer_row) (emp : list emp_row) : py outputs :=
  (built <- build_switching_regression_data ln skills switches stayers ;;
   fitted <- step1_ols_residualize (fst built) ;;
   learned <- step2_random_forest random_forest (fst fitted) (snd built) ;;
   aggregated <- compute_aggregate_portability (fst learned) emp ;;
   Py.ret (mk_outputs (fst learned) (fst aggregated) (snd learned)
                      (snd fitted)))%py.

End Main.

(** ** Sample tables *)

Module Sample.

(** Stand-ins for [np.log] and for the forest in concrete runs; no
    statement depends on the values they return. *)
Definition ln (q : Q) : Q := q - 1.

Definition forest (X : list (list Q)) (y : list Q) : py (list Q * list Q) :=
  Py.ret (y, []).

Definition skills : list skill_row :=
  [mk_skill 1 [1#2; 1#4]; mk_skill 2 [1#3; 1]; mk_skill 3 [0; 3#4]].

(** A skill table that shares no occupation with the switching matrix. *)
Definition skills_disjoint : list skill_row :=
  [mk_skill 7 [1#2; 1#4]; mk_skill 8 [1#3; 1]].

(** Occupation 1 keeps a self-pair of weight 7, below every count
    between distinct occupations, and sends nobody to occupation 3. *)
Definition switches : list switch_row :=
  [mk_switch 1 2 100; mk_switch 1 3 0; mk_switch 1 1 7;
   mk_switch 2 3 50; mk_switch 2 1 60].

Definition stayers : list stayer_row :=
  [mk_stayer 1 1000; mk_stayer 2 500].

Definition emp : list emp_row := [mk_emp 2 5000; mk_emp 3 1000].

Definition self_row : merged_row := (mk_switch 1 1 7, mk_stayer 1 1000).

Definition zero_row : merged_row := (mk_switch 1 3 0, mk_stayer 1 1000).

Definition scored (o d : Z) (p : Q) : scored_pair :=
  mk_scored (mk_pair o d 1 1 0) 0 p.

(** Occupation 2 only leads to occupation 1, which the employment table
    does not list. *)
Definition scored_pairs : list scored_pair :=
  [scored 1 2 (3#10); scored 1 3 (1#10); scored 2 1 (1#5)].


Definition observed (o d : Z) (y : Q) : pair_obs := mk_pair o d 1 1 y.

(** Six origins chained through five destinations: every group has at
    most two rows and the alternating projections converge slowly. *)
Definition slow_chain : list pair_obs :=
  [observed 1 101 1; observed 2 101 0; observed 2 102 3; observed 3 102 0;
   observed 3 103 7; observed 4 103 0; observed 4 104 2; observed 5 104 0;
   observed 5 105 4; observed 6 105 1].

(** Two origins and two destinations, every pair observed. *)
Definition two_by_two : list pair_obs :=
  [observed 1 11 (-2); observed 1 12 (-3); observed 2 11 (-1);
   observed 2 12 (-5#2)].

End Sample.

(** A long chain: origin [i] meets destinations [i - 1] and [i], and the
    values are chosen so that one pass moves every row by less than the
    tolerance while the origin means stay near 1e-6. *)
Module Chain.

Definition n : Z := 10580.

Definition w (i : Z) : Q :=
  (13 * (2 * i - 1) * (2 * n - 2 * i - 1))%Z # 274877906944.





End Chain.

(** A column that is zero on every row. *)
Definition all_zero {A} (l : list (A * Q)) : Prop :=
  Forall (fun p => snd p = 0) l.

(** Further small tables. *)
Module Cases.

(** Three pairs that share no destination. *)
Definition fan_out : list pair_obs :=
  [Sample.observed 1 11 (-2); Sample.observed 1 12 (-3);
   Sample.observed 2 13 (-1)].



(** The first row of the aggregate table. *)
Definition first_row (switches : list scored_pair) (emp : list emp_row)
  : agg_row :=
  hd (mk_agg 0 NaN NaN)
     (fst (match fst (compute_aggregate_portability switches emp at_main) with
           | Returned out => out
           | Raised _ => ([], [])
           end)).

(** The frame of the builder on the sample tables, with a zero residual
    on every row. *)
Definition fitted : list (pair_obs * Q) :=
  map (fun p => (p, 0))
      (regression_rows Sample.ln Sample.skills Sample.switches Sample.stayers).

End Cases.

(** * Properties *)

(** ** Comparisons and reductions *)

Lemma Qltb_lt (a b : Q) : Qltb a b = true <-> a < b.
Proof.
  unfold Qltb. rewrite negb_true_iff.
  split; intro H.
  - apply Qnot_le_lt. intro L. apply Qle_bool_iff in L. congruence.
  - destruct (Qle_bool b a) eqn:E; [|reflexivity].
    apply Qle_bool_iff in E. lra.
Qed.

Lemma Qltb_ge (a b : Q) : Qltb a b = false <-> b <= a.
Proof.
  unfold Qltb. rewrite negb_false_iff. apply Qle_bool_iff.
Qed.

Lemma Qeq_bool_true (a b : Q) : a == b -> Qeq_bool a b = true.
Proof. apply Qeq_bool_iff. Qed.

Lemma Qeq_bool_false (a b : Q) : ~ a == b -> Qeq_bool a b = false.
Proof.
  intro H. destruct (Qeq_bool a b) eqn:E; [|reflexivity].
  apply Qeq_bool_iff in E. contradiction.
Qed.

Lemma qmin_cases (a b : Q) : (qmin a b = a /\ a <= b) \/ (qmin a b = b /\ b < a).
Proof.
  unfold qmin. destruct (Qle_bool a b) eqn:E.
  - left. split; [reflexivity | now apply Qle_bool_iff].
  - right. split; [reflexivity|]. apply Qltb_lt. unfold Qltb. now rewrite E.
Qed.

Lemma qmax_cases (a b : Q) : (qmax a b = b /\ a <= b) \/ (qmax a b = a /\ b < a).
Proof.
  unfold qmax. destruct (Qle_bool a b) eqn:E.
  - left. split; [reflexivity | now apply Qle_bool_iff].
  - right. split; [reflexivity|]. apply Qltb_lt. unfold Qltb. now rewrite E.
Qed.

(** The running minimum is an element of the column and a lower bound. *)
Lemma fold_qmin_spec (t : list Q) (x : Q) :
  In (fold_left qmin t x) (x :: t) /\
  forall v, In v (x :: t) -> fold_left qmin t x <= v.
Proof.
  revert x. induction t as [|y t IH]; intro x; simpl.
  - split; [now left|]. intros v [<-|[]]. lra.
  - destruct (IH (qmin x y)) as [Hin Hle]. split.
    + destruct Hin as [Hq|Hin]; [|now right; right].
      destruct (qmin_cases x y) as [[E _]|[E _]]; rewrite E in *; auto.
    + intros v Hv.
      assert (Hm : fold_left qmin t (qmin x y) <= qmin x y) by (apply Hle; now left).
      destruct (qmin_cases x y) as [[E L]|[E L]]; rewrite E in *;
        destruct Hv as [<-|[<-|Hv]]; try lra; apply Hle; now right.
Qed.

Lemma fold_qmax_spec (t : list Q) (x : Q) :
  In (fold_left qmax t x) (x :: t) /\
  forall v, In v (x :: t) -> v <= fold_left qmax t x.
Proof.
  revert x. induction t as [|y t IH]; intro x; simpl.
  - split; [now left|]. intros v [<-|[]]. lra.
  - destruct (IH (qmax x y)) as [Hin Hle]. split.
    + destruct Hin as [Hq|Hin]; [|now right; right].
      destruct (qmax_cases x y) as [[E _]|[E _]]; rewrite E in *; auto.
    + intros v Hv.
      assert (Hm : qmax x y <= fold_left qmax t (qmax x y)) by (apply Hle; now left).
      destruct (qmax_cases x y) as [[E L]|[E L]]; rewrite E in *;
        destruct Hv as [<-|[<-|Hv]]; try lra; apply Hle; now right.
Qed.

Lemma series_min_spec (l : list Q) :
  l <> [] ->
  exists m, series_min l = Fin m /\ In m l /\ forall v, In v l -> m <= v.
Proof.
  destruct l as [|x t]; [congruence|]. intros _.
  exists (fold_left qmin t x). split; [reflexivity|]. apply fold_qmin_spec.
Qed.

Lemma series_max_spec (l : list Q) :
  l <> [] ->
  exists m, series_max l = Fin m /\ In m l /\ forall v, In v l -> v <= m.
Proof.
  destruct l as [|x t]; [congruence|]. intros _.
  exists (fold_left qmax t x). split; [reflexivity|]. apply fold_qmax_spec.
Qed.

(** ** The builder *)

Section BuilderFacts.

Variable ln : Q -> Q.

Lemma filter_nil_of_all_false {A} (p : A -> bool) (l : list A) :
  (forall x, In x l -> p x = false) -> filter p l = [].
Proof.
  induction l as [|x t IH]; intro H; simpl; [reflexivity|].
  rewrite (H x (or_introl eq_refl)). apply IH. intros y Hy. apply H. now right.
Qed.

(** No switching row with both occupations in the skill table: nothing
    is joined and nothing is returned. *)
Lemma empty_intersection_no_rows skills switches stayers :
  (forall r, In r switches ->
             isin (skill_occs skills) (occ_origin r)
             && isin (skill_occs skills) (occ_dest r) = false) ->
  regression_rows ln skills switches stayers = [].
Proof.
  intro H. unfold regression_rows, merged_table, filter_switches.
  rewrite (filter_nil_of_all_false _ _ H). reflexivity.
Qed.


Lemma min_nonzero_none merged :
  (forall r, In r merged -> weighted_switches (fst r) <= 0) ->
  min_nonzero merged = NaN.
Proof.
  intro H. unfold min_nonzero. rewrite filter_nil_of_all_false; [reflexivity|].
  intros x Hx. apply in_map_iff in Hx. destruct Hx as [r [<- Hr]].
  apply Qltb_ge. now apply H.
Qed.

Lemma zero_share_floored floor r :
  weighted_switches (fst r) == 0 -> 0 < weighted_stayers (snd r) ->
  switch_share floor r = Float.div floor (Fin (weighted_stayers (snd r))).
Proof.
  intros Hz Hs. unfold switch_share, raw_share. simpl.
  rewrite (Qeq_bool_false (weighted_stayers (snd r)) 0) by lra.
  simpl. rewrite Qeq_bool_true; [reflexivity|].
  rewrite Hz. field. lra.
Qed.

Lemma log_of_floor m r :
  weighted_switches (fst r) == 0 -> 0 < weighted_stayers (snd r) -> 0 < m ->
  log_switch_share ln (Fin m) r = Fin (ln (m / weighted_stayers (snd r))).
Proof.
  intros Hz Hs Hm. unfold log_switch_share.
  rewrite zero_share_floored by assumption. simpl.
  rewrite (Qeq_bool_false (weighted_stayers (snd r)) 0) by lra.
  simpl.
  assert (Hq : 0 < m / weighted_stayers (snd r)).
  { apply Qlt_shift_div_l; lra. }
  apply Qltb_lt in Hq. now rewrite Hq.
Qed.

Lemma filter_map_In {A B} (f : A -> option B) (l : list A) (x : A) (y : B) :
  In x l -> f x = Some y -> In y (filter_map f l).
Proof.
  induction l as [|a t IH]; simpl; [tauto|].
  intros [->|Hin] Hf.
  - rewrite Hf. now left.
  - destruct (f a); [right|]; now apply IH.
Qed.


End BuilderFacts.


(** C10. The floor is the least positive count of the joined table, taken
    while the self-pairs are still in it; in the sample tables the self-pair
    1 -> 1 has the least positive count, 7, below every count between
    distinct occupations, and the pair 1 -> 3 with no switches is returned
    with [ln (7 / 1000)]. *)
Theorem floor_taken_before_self_pairs_removed :
  (forall ln skills switches stayers,
      regression_rows ln skills switches stayers
      = filter_map
          (keep_finite ln (min_nonzero (merged_table skills switches stayers)))
          (filter not_self_pair (merged_table skills switches stayers))) /\
  (let merged := merged_table Sample.skills Sample.switches Sample.stayers in
   In Sample.self_row merged /\
   not_self_pair Sample.self_row = false /\
   In Sample.zero_row merged /\
   not_self_pair Sample.zero_row = true /\
   min_nonzero merged = Fin (weighted_switches (fst Sample.self_row)) /\
   (forall r, In r merged -> not_self_pair r = true ->
              0 < weighted_switches (fst r) ->
              weighted_switches (fst Sample.self_row)
              < weighted_switches (fst r)) /\
   forall ln,
     In (mk_pair 1 3 0 1000 (ln (7 / 1000)))
        (regression_rows ln Sample.skills Sample.switches Sample.stayers)).
Proof.
  split; [reflexivity|].
  cbv zeta.
  repeat split.
  - vm_compute; tauto.
  - vm_compute; tauto.
  - intros r Hr Hns Hpos. vm_compute in Hr.
    repeat (destruct Hr as [<-|Hr]); try contradiction;
      try discriminate Hns; try reflexivity; vm_compute in Hpos; discriminate.
  - intro ln. apply filter_map_In with (x := Sample.zero_row).
    + vm_compute; tauto.
    + unfold keep_finite.
      replace (min_nonzero _) with (Fin 7) by reflexivity.
      rewrite log_of_floor; [reflexivity | reflexivity | reflexivity | reflexivity].
Qed.

(** ** An empty pair table *)

Lemma builder_returns ln skills switches stayers st :
  fst (build_switching_regression_data ln skills switches stayers st)
  = Returned (regression_rows ln skills switches stayers, skills).
Proof. reflexivity. Qed.

(** On an empty frame the first convergence test takes the maximum of an
    empty array. *)
Lemma step1_empty_raises st :
  step1_ols_residualize [] st
  = (Raised "ValueError",
     snd (np_mean [] (snd (Py.print banner_step1 st)))).
Proof. reflexivity. Qed.

Lemma main_stops_in_step1 ln forest skills switches stayers emp :
  regression_rows ln skills switches stayers = [] ->
  main ln forest skills switches stayers emp at_main
  = (Raised "ValueError",
     mk_pystate ActionIgnore [] [banner_build; banner_step1]).
Proof.
  intro H. unfold main, build_switching_regression_data, Py.bind, Py.print, Py.ret.
  simpl. rewrite H. reflexivity.
Qed.

(** C1, as the script behaves.  When no switching row has both occupations
    in the skill table, or no row survives the filters, the builder returns
    an empty frame without raising; the pipeline then stops in the
    residualizer with numpy's ValueError, after the banner of step 1 and
    before the learner is entered, whatever the learner is. *)
Theorem empty_table_stops_in_residualizer
    ln forest skills switches stayers emp :
  (forall r, In r switches ->
             isin (skill_occs skills) (occ_origin r)
             && isin (skill_occs skills) (occ_dest r) = false)
  \/ regression_rows ln skills switches stayers = [] ->
  fst (build_switching_regression_data ln skills switches stayers at_main)
    = Returned ([], skills) /\
  exists st,
    main ln forest skills switches stayers emp at_main
      = (Raised "ValueError", st) /\
    stdout st = [banner_build; banner_step1] /\
    ~ In banner_step2 (stdout st) /\
    shown_warnings st = [].
Proof.
  intro H.
  assert (E : regression_rows ln skills switches stayers = []).
  { destruct H as [H|H]; [now apply empty_intersection_no_rows | exact H]. }
  split.
  - rewrite builder_returns, E. reflexivity.
  - eexists. split; [now apply main_stops_in_step1|].
    repeat split. simpl. intros [D|[D|[]]]; discriminate D.
Qed.

Lemma empty_table_stops_in_residualizer_witness :
  fst (build_switching_regression_data Sample.ln Sample.skills_disjoint
         Sample.switches Sample.stayers at_main)
    = Returned ([], Sample.skills_disjoint) /\
  exists st,
    main Sample.ln Sample.forest Sample.skills_disjoint Sample.switches
         Sample.stayers Sample.emp at_main
      = (Raised "ValueError", st) /\
    stdout st = [banner_build; banner_step1] /\
    ~ In banner_step2 (stdout st) /\
    shown_warnings st = [].
Proof.
  apply (empty_table_stops_in_residualizer Sample.ln Sample.forest
           Sample.skills_disjoint Sample.switches Sample.stayers Sample.emp).
  left. intros r Hr.
  repeat (destruct Hr as [<-|Hr]; [reflexivity|]). contradiction.
Defined.

(** C1 as stated fails: with a skill table that shares no occupation with
    the switching matrix the builder returns normally, and the error that
    ends the run is not a DataError. *)
Lemma builder_does_not_raise_on_empty_intersection :
  (forall r, In r Sample.switches ->
             isin (skill_occs Sample.skills_disjoint) (occ_origin r)
             && isin (skill_occs Sample.skills_disjoint) (occ_dest r) = false) /\
  build_switching_regression_data Sample.ln Sample.skills_disjoint
      Sample.switches Sample.stayers at_main
    = (Returned ([], Sample.skills_disjoint),
       mk_pystate ActionIgnore [] [banner_build]) /\
  fst (main Sample.ln Sample.forest Sample.skills_disjoint Sample.switches
            Sample.stayers Sample.emp at_main)
    <> Raised "DataError".
Proof.
  split; [|split].
  - intros r Hr.
    repeat (destruct Hr as [<-|Hr]; [reflexivity|]). contradiction.
  - reflexivity.
  - vm_compute. discriminate.
Qed.

(** ** Dictionaries and group keys *)

Lemma dict_set_binding {V} (d : Dict.t V) k v k' v' :
  In (k', v') (Dict.set d k v) -> (k' = k /\ v' = v) \/ In (k', v') d.
Proof.
  induction d as [|[k0 v0] rest IH]; simpl.
  - intros [E|[]]. inversion E. now left.
  - destruct (k0 =? k)%Z eqn:Ek; simpl.
    + intros [E|H]; [inversion E; now left | right; now right].
    + intros [E|H]; [right; now left|].
      destruct (IH H) as [L|R]; [now left | right; now right].
Qed.

Lemma dict_set_keys {V} (d : Dict.t V) k v k' :
  In k' (Dict.keys (Dict.set d k v)) <-> k' = k \/ In k' (Dict.keys d).
Proof.
  unfold Dict.keys. induction d as [|[k0 v0] rest IH]; simpl.
  - intuition.
  - destruct (k0 =? k)%Z eqn:Ek; simpl.
    + apply Z.eqb_eq in Ek. subst k0. intuition.
    + rewrite IH. intuition.
Qed.

Lemma dict_get_cases {V} (d : Dict.t V) k dflt :
  Dict.get d k dflt = dflt \/ In (k, Dict.get d k dflt) d.
Proof.
  induction d as [|[k0 v0] rest IH]; simpl; [now left|].
  destruct (k0 =? k)%Z eqn:Ek.
  - apply Z.eqb_eq in Ek. subst. right. now left.
  - destruct IH as [L|R]; [now left | right; now right].
Qed.

Lemma dict_of_pairs_binding {V} (l : list (Z * V)) k v :
  In (k, v) (Dict.of_pairs l) -> In (k, v) l.
Proof.
  unfold Dict.of_pairs.
  assert (G : forall d, In (k, v) (fold_left (fun d kv => Dict.set d (fst kv) (snd kv)) l d) ->
                        In (k, v) d \/ In (k, v) l).
  { induction l as [|[k0 v0] t IH]; simpl; intros d H; [now left|].
    destruct (IH _ H) as [Hd|Ht]; [|right; now right].
    destruct (dict_set_binding _ _ _ _ _ Hd) as [[-> ->]|Hd']; [right; now left | now left]. }
  intro H. destruct (G [] H) as [[]|H']; exact H'.
Qed.



(** ** The aggregator *)

Section AggregatorFacts.

Variable emp : Dict.t Q.
Variable port : list port_row.

(** Every binding of [agg_port] belongs to an origin of positive total
    weight and holds that origin's weighted mean. *)
Lemma agg_port_sound keys d :
  (forall o v, In (o, v) d -> 0 < total_weight emp port o /\ v = weighted_mean emp port o) ->
  forall o v, In (o, v) (fold_left (agg_step emp port) keys d) ->
              0 < total_weight emp port o /\ v = weighted_mean emp port o.
Proof.
  revert d. induction keys as [|k ks IH]; simpl; intros d Hd; [exact Hd|].
  apply IH. intros o v Hin. unfold agg_step in Hin.
  destruct (Qltb 0 (snd (accumulate emp (rows_of_origin port k)))) eqn:E.
  - destruct (dict_set_binding _ _ _ _ _ Hin) as [[-> ->]|Hin'].
    + split; [now apply Qltb_lt | reflexivity].
    + now apply Hd.
  - now apply Hd.
Qed.



(** The accumulators of one group stay between the bounds of its scores. *)
Lemma accumulate_between lo hi group wp0 tw0 :
  (forall d, 0 <= Dict.get emp d 0) ->
  (forall r, In r group ->
             exists q, portability_norm r = Fin q /\ lo <= q <= hi) ->
  0 <= tw0 -> lo * tw0 <= wp0 <= hi * tw0 ->
  exists wp, fst (fold_left (weigh emp) group (Fin wp0, tw0)) = Fin wp /\
             0 <= snd (fold_left (weigh emp) group (Fin wp0, tw0)) /\
             lo * snd (fold_left (weigh emp) group (Fin wp0, tw0)) <= wp
             <= hi * snd (fold_left (weigh emp) group (Fin wp0, tw0)).
Proof.
  intros Hemp. revert wp0 tw0.
  induction group as [|r t IH]; simpl; intros wp0 tw0 Hs Htw Hwp.
  - exists wp0. auto.
  - destruct (Hs r (or_introl eq_refl)) as [q [Eq [Hlo Hhi]]].
    unfold weigh at 2 4 6 8. simpl. rewrite Eq. simpl.
    pose proof (Hemp (port_dest r)) as He.
    apply IH.
    + intros r' Hr'. apply Hs. now right.
    + lra.
    + split; nra.
Qed.

End AggregatorFacts.

Section NormalizeFacts.

Variable switches : list scored_pair.

Let col : list Q := map predicted_skill_portability switches.

Lemma normalize_row r :
  In r (normalize switches) ->
  In (port_predicted r) col /\
  portability_norm r
  = Float.div (Float.sub (Fin (port_predicted r)) (series_min col))
              (Float.sub (series_max col) (series_min col)).
Proof.
  unfold normalize. fold col. intro H.
  apply in_map_iff in H. destruct H as [s [<- Hs]]. simpl.
  split; [|reflexivity].
  unfold col. now apply in_map.
Qed.

Lemma range_of_column :
  col <> [] ->
  exists lo hi, series_min col = Fin lo /\ series_max col = Fin hi /\
                forall p, In p col -> lo <= p <= hi.
Proof.
  intro Hne.
  destruct (series_min_spec col Hne) as [lo [Elo [_ Hlo]]].
  destruct (series_max_spec col Hne) as [hi [Ehi [_ Hhi]]].
  exists lo, hi. repeat split; auto.
Qed.


(** [max != min]: each score is the finite quotient. *)
Lemma proper_scores r :
  Float.eqb (series_max col) (series_min col) = false ->
  In r (normalize switches) ->
  exists lo hi, series_min col = Fin lo /\ series_max col = Fin hi /\
                lo < hi /\ lo <= port_predicted r <= hi /\
                portability_norm r
                = Fin ((port_predicted r + - lo) / (hi + - lo)).
Proof.
  intros Hneq Hr. destruct (normalize_row r Hr) as [Hp E].
  assert (Hne : col <> []) by (intro E'; rewrite E' in Hp; contradiction).
  destruct (range_of_column Hne) as [lo [hi [Elo [Ehi Hb]]]].
  exists lo, hi. rewrite E, Elo, Ehi in *. simpl in Hneq.
  assert (Hd : ~ hi == lo).
  { intro D. apply Qeq_bool_iff in D. congruence. }
  destruct (Hb _ Hp) as [H1 H2].
  repeat split; auto; try lra.
  simpl. rewrite Qeq_bool_false by lra. reflexivity.
Qed.

End NormalizeFacts.

(** The frame the aggregator returns. *)
Lemma aggregator_returns switches emp st :
  compute_aggregate_portability switches emp st
  = (Returned
       (map (fun kv => mk_agg (fst kv) (snd kv)
                              (mean_port (normalize switches) (fst kv)))
            (agg_port_of (emp_map emp) (normalize switches)),
        normalize switches),
     snd (Py.print banner_aggregate st)).
Proof. reflexivity. Qed.




Lemma emp_map_nonneg emp :
  (forall e, In e emp -> 0 <= emp_pre e) ->
  forall d, 0 <= Dict.get (emp_map emp) d 0.
Proof.
  intros H d. destruct (dict_get_cases (emp_map emp) d 0) as [E|Hin].
  - rewrite E. lra.
  - apply dict_of_pairs_binding in Hin. apply in_map_iff in Hin.
    destruct Hin as [e [E He]]. injection E as Ek Ev. rewrite <- Ev.
    now apply H.
Qed.

Lemma agg_df_rows emp port row :
  In row (map (fun kv => mk_agg (fst kv) (snd kv) (mean_port port (fst kv)))
              (agg_port_of emp port)) ->
  0 < total_weight emp port (occ2010 row) /\
  aggregate_portability row = weighted_mean emp port (occ2010 row).
Proof.
  intro H. apply in_map_iff in H. destruct H as [[k v] [<- Hkv]]. simpl.
  eapply agg_port_sound; [|exact Hkv]. intros o' v' [].
Qed.


(** C9, as the script behaves.  An origin whose destinations carry no
    employment weight gets no entry in [agg_port]; it is absent from the
    returned aggregate table, and the stage prints and warns nothing
    about it. *)
Theorem zero_weight_origin_is_dropped switches emp o st :
  total_weight (emp_map emp) (normalize switches) o == 0 ->
  exists agg_df port st',
    compute_aggregate_portability switches emp st
      = (Returned (agg_df, port), st') /\
    ~ In o (map occ2010 agg_df) /\
    stdout st' = stdout st ++ [banner_aggregate] /\
    shown_warnings st' = shown_warnings st.
Proof.
  intro Hz. rewrite aggregator_returns.
  eexists. eexists. eexists. split; [reflexivity|].
  split; [|split; reflexivity].
  intro Hin. apply in_map_iff in Hin. destruct Hin as [row [Eo Hrow]].
  apply agg_df_rows in Hrow. rewrite Eo in Hrow. destruct Hrow as [Hpos _]. lra.
Qed.

Lemma zero_weight_origin_is_dropped_witness :
  exists agg_df port st',
    compute_aggregate_portability Sample.scored_pairs Sample.emp at_main
      = (Returned (agg_df, port), st') /\
    ~ In 2%Z (map occ2010 agg_df) /\
    stdout st' = stdout at_main ++ [banner_aggregate] /\
    shown_warnings st' = shown_warnings at_main.
Proof.
  apply (zero_weight_origin_is_dropped Sample.scored_pairs Sample.emp 2 at_main).
  reflexivity.
Defined.

(** C9 as stated fails: occupation 2 is an origin whose only destination
    has no employment figure; the returned table lists occupation 1 alone
    and nothing records that occupation 2 was left out. *)
Lemma excluded_origin_is_not_reported :
  In 2%Z (map port_origin (normalize Sample.scored_pairs)) /\
  total_weight (emp_map Sample.emp) (normalize Sample.scored_pairs) 2 == 0 /\
  exists agg_df port,
    compute_aggregate_portability Sample.scored_pairs Sample.emp at_main
      = (Returned (agg_df, port),
         mk_pystate ActionIgnore [] [banner_aggregate]) /\
    map occ2010 agg_df = [1%Z].
Proof.
  split; [vm_compute; tauto|]. split; [reflexivity|].
  eexists. eexists. split; [rewrite aggregator_returns; reflexivity|].
  vm_compute. reflexivity.
Qed.




(** ** Sums over columns *)

Lemma qsum_cons x l : qsum (x :: l) = x + qsum l.
Proof. reflexivity. Qed.

Lemma qlen_cons {A} (x : A) l : qlen (x :: l) == 1 + qlen l.
Proof.
  unfold qlen. cbn [length]. rewrite Nat2Z.inj_succ, <- Z.add_1_l.
  rewrite inject_Z_plus. reflexivity.
Qed.

Lemma qlen_nonneg {A} (l : list A) : 0 <= qlen l.
Proof.
  induction l as [|x t IH]; [unfold qlen, Qle; simpl; lia|].
  rewrite qlen_cons. lra.
Qed.

Lemma qlen_pos {A} (l : list A) : l <> [] -> 0 < qlen l.
Proof.
  destruct l as [|x t]; [congruence|]. intros _.
  rewrite qlen_cons. pose proof (qlen_nonneg t). lra.
Qed.

Lemma qlen_map {A B} (f : A -> B) l : qlen (map f l) = qlen l.
Proof. unfold qlen. now rewrite length_map. Qed.

Lemma qsum_map_ext {A} (f g : A -> Q) l :
  (forall x, In x l -> f x == g x) -> qsum (map f l) == qsum (map g l).
Proof.
  induction l as [|x t IH]; intro H; simpl; [reflexivity|].
  rewrite (H x (or_introl eq_refl)), IH; [reflexivity|].
  intros y Hy. apply H. now right.
Qed.

Lemma qsum_map_add {A} (f g : A -> Q) l :
  qsum (map (fun x => f x + g x) l) == qsum (map f l) + qsum (map g l).
Proof. induction l as [|x t IH]; simpl; [|rewrite IH]; ring. Qed.

Lemma qsum_map_scale {A} (c : Q) (f : A -> Q) l :
  qsum (map (fun x => c * f x) l) == c * qsum (map f l).
Proof. induction l as [|x t IH]; simpl; [|rewrite IH]; ring. Qed.

Lemma qsum_map_const {A} (c : Q) (l : list A) :
  qsum (map (fun _ => c) l) == qlen l * c.
Proof.
  induction l as [|x t IH]; [unfold qlen; simpl; ring|].
  cbn [map]. rewrite qsum_cons, IH, qlen_cons. ring.
Qed.

Lemma qsum_map_nonneg {A} (f : A -> Q) l :
  (forall x, In x l -> 0 <= f x) -> 0 <= qsum (map f l).
Proof.
  induction l as [|x t IH]; intro H; simpl; [lra|].
  assert (0 <= f x) by (apply H; now left).
  assert (0 <= qsum (map f t)) by (apply IH; intros y Hy; apply H; now right).
  lra.
Qed.

Lemma qsum_map_le {A} (f g : A -> Q) l :
  (forall x, In x l -> f x <= g x) -> qsum (map f l) <= qsum (map g l).
Proof.
  induction l as [|x t IH]; intro H; simpl; [lra|].
  assert (f x <= g x) by (apply H; now left).
  assert (qsum (map f t) <= qsum (map g t))
    by (apply IH; intros y Hy; apply H; now right).
  lra.
Qed.

(** A sum splits along any test. *)
Lemma qsum_filter_split {A} (p : A -> bool) (f : A -> Q) l :
  qsum (map f l)
  == qsum (map f (filter p l)) + qsum (map f (filter (fun x => negb (p x)) l)).
Proof.
  induction l as [|x t IH]; simpl; [ring|].
  destruct (p x); simpl; rewrite IH; ring.
Qed.

Lemma filter_length_le {A} (p : A -> bool) l :
  (length (filter p l) <= length l)%nat.
Proof.
  induction l as [|x t IH]; simpl; [lia|]. destruct (p x); simpl; lia.
Qed.

Lemma filter_filter_neg {A} (p q : A -> bool) l :
  (forall x, q x = true -> p x = false) ->
  filter q (filter (fun x => negb (p x)) l) = filter q l.
Proof.
  intro H. induction l as [|x t IH]; simpl; [reflexivity|].
  destruct (p x) eqn:Ep; simpl.
  - destruct (q x) eqn:Eq; [|exact IH].
    apply H in Eq. congruence.
  - destruct (q x); now rewrite IH.
Qed.

(** ** Group means *)

Section GroupFacts.

Context {A : Type}.
Variable key : A -> Z.

Lemma group_sum_mean (l : list (A * Q)) k :
  qsum (group key l k) == qlen (group key l k) * group_mean key l k.
Proof.
  unfold group_mean.
  destruct (group key l k) as [|x t] eqn:E.
  - unfold qlen. simpl. ring.
  - rewrite <- E. assert (0 < qlen (group key l k)).
    { apply qlen_pos. rewrite E. discriminate. }
    field. lra.
Qed.

(** The mean of the group of [k] only reads the rows of that group. *)
Lemma group_after_removing (l : list (A * Q)) k k' :
  k' <> k ->
  group key (filter (fun p => negb (in_group key k p)) l) k' = group key l k'.
Proof.
  intro Hne. unfold group. f_equal.
  apply filter_filter_neg. intros x Hx. unfold in_group.
  apply Z.eqb_eq in Hx. apply Z.eqb_neq. congruence.
Qed.

Lemma group_mean_after_removing (l : list (A * Q)) k k' :
  k' <> k ->
  group_mean key (filter (fun p => negb (in_group key k p)) l) k'
  = group_mean key l k'.
Proof.
  intro Hne. unfold group_mean. now rewrite group_after_removing.
Qed.

(** The deviations from the group means are orthogonal to every function
    of the key. *)
Lemma deviations_orthogonal (f : Z -> Q) (l : list (A * Q)) :
  qsum (map (fun p => f (key (fst p))
                      * (snd p - group_mean key l (key (fst p)))) l) == 0.
Proof.
  remember (length l) as n eqn:Hn.
  assert (Hle : (length l <= n)%nat) by lia. clear Hn.
  revert l Hle. induction n as [|n IH]; intros l Hle.
  - destruct l; [reflexivity | simpl in Hle; lia].
  - destruct l as [|x t]; [reflexivity|].
    set (l := x :: t) in *. set (k := key (fst x)).
    rewrite (qsum_filter_split (in_group key k)).
    assert (H1 : qsum (map (fun p => f (key (fst p))
                  * (snd p - group_mean key l (key (fst p))))
                  (filter (in_group key k) l)) == 0).
    { rewrite (qsum_map_ext _ (fun p => f k * snd p + - (f k * group_mean key l k))).
      - rewrite qsum_map_add, qsum_map_scale, qsum_map_const.
        pose proof (group_sum_mean l k) as G. unfold group in G.
        rewrite qlen_map in G. rewrite G. ring.
      - intros p Hp. apply filter_In in Hp. destruct Hp as [_ Hp].
        unfold in_group in Hp. apply Z.eqb_eq in Hp. rewrite Hp. ring. }
    rewrite H1.
    set (l' := filter (fun p => negb (in_group key k p)) l).
    assert (Hlen : (length l' <= n)%nat).
    { unfold l', l. simpl. unfold in_group at 1. fold k.
      rewrite Z.eqb_refl. simpl.
      pose proof (filter_length_le (fun p => negb (in_group key k p)) t).
      simpl in Hle. lia. }
    rewrite (qsum_map_ext _ (fun p => f (key (fst p))
               * (snd p - group_mean key l' (key (fst p))))).
    + rewrite (IH l' Hlen). ring.
    + intros p Hp. apply filter_In in Hp. destruct Hp as [_ Hp].
      apply negb_true_iff in Hp. unfold in_group in Hp. apply Z.eqb_neq in Hp.
      unfold l'. rewrite group_mean_after_removing by exact Hp. reflexivity.
Qed.

End GroupFacts.

(** ** Sums of squares under demeaning *)

Lemma sq_nonneg (x : Q) : 0 <= sq x.
Proof. unfold sq. destruct (Qlt_le_dec x 0); nra. Qed.

Section DemeanFacts.

Context {A : Type}.
Variable key : A -> Z.

Lemma demean_length (l : list (A * Q)) : length (demean key l) = length l.
Proof. unfold demean. apply length_map. Qed.

Lemma demean_keys (l : list (A * Q)) : map fst (demean key l) = map fst l.
Proof. unfold demean. rewrite map_map. reflexivity. Qed.

(** A sum over the demeaned column, read on the column itself. *)
Lemma qsum_demean (f : A -> Q -> Q) (l : list (A * Q)) :
  (forall a x y, x == y -> f a x == f a y) ->
  qsum (map (fun p => f (fst p) (snd p)) (demean key l))
  == qsum (map (fun p => f (fst p) (snd p - group_mean key l (key (fst p)))) l).
Proof.
  intro Hf. unfold demean. rewrite map_map. apply qsum_map_ext.
  intros p _. cbn [fst snd]. apply Hf. apply Qred_correct.
Qed.

(** Group means minimise the sum of squares: demeaning leaves no more
    than the squared distances to any constant. *)
Lemma demean_ss_le (c : Q) (l : list (A * Q)) :
  ss_resid (demean key l) <= qsum (map (fun p => sq (snd p - c)) l).
Proof.
  unfold ss_resid.
  rewrite (qsum_demean (fun _ x => sq x)).
  2:{ intros a x y E. unfold sq. now rewrite E. }
  set (g := fun p : A * Q => group_mean key l (key (fst p))).
  assert (Hsplit :
    qsum (map (fun p => sq (snd p - c)) l)
    == qsum (map (fun p => sq (snd p - g p)) l)
       + (qsum (map (fun p => sq (g p - c)) l)
          + 2 * qsum (map (fun p => (group_mean key l (key (fst p)) - c)
                                    * (snd p - group_mean key l (key (fst p)))) l))).
  { rewrite <- qsum_map_scale, <- !qsum_map_add. apply qsum_map_ext.
    intros p _. unfold sq, g. ring. }
  rewrite (deviations_orthogonal key (fun k => group_mean key l k - c)) in Hsplit.
  assert (0 <= qsum (map (fun p => sq (g p - c)) l)).
  { apply qsum_map_nonneg. intros p _. apply sq_nonneg. }
  subst g. cbv beta in *. lra.
Qed.

Lemma demean_ss_nonincreasing (l : list (A * Q)) :
  ss_resid (demean key l) <= ss_resid l.
Proof.
  eapply Qle_trans; [apply (demean_ss_le 0)|].
  unfold ss_resid. apply Qle_lteq. right. apply qsum_map_ext.
  intros p _. unfold sq. ring.
Qed.

End DemeanFacts.

Lemma sweep_ss_nonincreasing l : ss_resid (sweep l) <= ss_resid l.
Proof.
  unfold sweep. eapply Qle_trans; apply demean_ss_nonincreasing.
Qed.

Lemma sweep_length l : length (sweep l) = length l.
Proof. unfold sweep. now rewrite !demean_length. Qed.



(** ** The loop *)

Lemma np_max_spec (l : list Q) :
  l <> [] ->
  exists m, (forall st, np_max l st = (Returned m, st)) /\
            In m l /\ forall v, In v l -> v <= m.
Proof.
  destruct l as [|x t]; [congruence|]. intros _.
  exists (fold_left qmax t x). split; [reflexivity|]. apply fold_qmax_spec.
Qed.

Lemma max_abs_change_spec (new old : list (pair_obs * Q)) :
  combine new old <> [] ->
  exists m, (forall st, max_abs_change new old st = (Returned m, st)) /\
            (forall p, In p (combine new old) ->
                       Qabs (snd (fst p) - snd (snd p)) <= m) /\
            exists p, In p (combine new old) /\
                      m = Qabs (snd (fst p) - snd (snd p)).
Proof.
  intro Hne. unfold max_abs_change.
  destruct (np_max_spec (map (fun p => Qabs (snd (fst p) - snd (snd p)))
                             (combine new old))) as [m [Hrun [Hin Hle]]].
  { destruct (combine new old); [congruence | discriminate]. }
  exists m. split; [exact Hrun|]. split.
  - intros p Hp. apply Hle.
    now apply (in_map (fun p => Qabs (snd (fst p) - snd (snd p)))).
  - apply in_map_iff in Hin. destruct Hin as [p [E Hp]]. exists p. auto.
Qed.

Lemma combine_sweep_nonempty l : l <> [] -> combine (sweep l) l <> [].
Proof.
  intro Hne. pose proof (sweep_length l) as Hlen.
  destruct l as [|x t]; [congruence|].
  destruct (sweep (x :: t)); [discriminate Hlen | discriminate].
Qed.

Lemma sweep_nonempty l : l <> [] -> sweep l <> [].
Proof.
  intros Hne E. pose proof (sweep_length l) as Hlen. rewrite E in Hlen.
  destruct l; [congruence | discriminate Hlen].
Qed.

(** On a non-empty frame the loop returns: it made [k] passes, all [n] of
    them if it was never interrupted, and if it was, the last pass moved
    every row by less than the tolerance. *)
Lemma demean_loop_spec n l :
  l <> [] ->
  exists res ex k,
    (forall st, demean_loop n l st = (Returned (res, ex), st)) /\
    (k <= n)%nat /\ res = Nat.iter k sweep l /\
    (ex = Exhausted -> k = n) /\
    (ex = Break ->
       (1 <= k)%nat /\
       forall p, In p (combine res (Nat.iter (k - 1) sweep l)) ->
                 Qabs (snd (fst p) - snd (snd p)) < tolerance) /\
    ((1 <= n)%nat -> (1 <= k)%nat).
Proof.
  revert l. induction n as [|n IH]; intros l Hne.
  - exists l, Exhausted, O. repeat split; auto; try discriminate; lia.
  - destruct (max_abs_change_spec (sweep l) l (combine_sweep_nonempty l Hne))
      as [m [Hrun [Hle _]]].
    destruct (Qltb m tolerance) eqn:Em.
    + exists (sweep l), Break, 1%nat.
      split; [|split; [lia|split; [reflexivity|split; [discriminate|split]]]].
      * intro st. cbn [demean_loop]. unfold Py.bind. rewrite Hrun, Em. reflexivity.
      * intros _. split; [lia|]. intros p Hp. simpl in Hp. apply Qltb_lt in Em.
        eapply Qle_lt_trans; [apply Hle; exact Hp | exact Em].
      * lia.
    + destruct (IH (sweep l) (sweep_nonempty l Hne))
        as [res [ex [k [Hloop [Hk [Eres [Hex [Hbr Hpos]]]]]]]].
      exists res, ex, (S k).
      split; [|split; [lia|split; [|split; [|split]]]].
      * intro st. cbn [demean_loop]. unfold Py.bind. rewrite Hrun, Em. apply Hloop.
      * rewrite Nat.iter_succ_r. exact Eres.
      * intro E. rewrite (Hex E). reflexivity.
      * intro E. destruct (Hbr E) as [Hk1 Hall]. split; [lia|].
        intros p Hp. apply Hall.
        replace (Nat.iter (S k - 1) sweep l)
          with (Nat.iter (k - 1) sweep (sweep l)) in Hp; [exact Hp|].
        rewrite <- Nat.iter_succ_r. f_equal. lia.
      * lia.
Qed.


(** What step 1 returns on a non-empty frame, in terms of its loop. *)
Lemma step1_runs switches res ex st :
  switches <> [] ->
  (forall s, demean_loop iteration_cap
               (combine switches (map log_share switches)) s
             = (Returned (res, ex), s)) ->
  step1_ols_residualize switches st
  = (Returned (res,
               Float.sub (Fin 1)
                 (Float.div (Fin (ss_resid res))
                            (Fin (ss_total (map log_share switches))))),
     snd (np_divide (ss_resid res) (ss_total (map log_share switches))
                    (snd (Py.print banner_step1 st)))).
Proof.
  intros Hne Hloop. unfold step1_ols_residualize, Py.bind.
  destruct switches as [|x t]; [congruence|].
  cbn [Py.print fst snd map np_mean Py.ret].
  rewrite Hloop. cbn [fst snd].
  unfold np_divide.
  destruct (Qeq_bool _ 0); reflexivity.
Qed.

(** ** Fit and convergence of step 1 *)






(** C5, as the script behaves.  When the loop uses all 50 passes without
    meeting the tolerance, step 1 goes on with the residuals of the last
    pass and returns them with [r2_fe]; it raises nothing, shows no
    warning, prints nothing but its banner, and what it returns has no
    field that tells the run from a converged one. *)
Theorem cap_reached_returns_silently switches res st :
  warn_filter st = ActionIgnore ->
  fst (demean_loop iteration_cap (combine switches (map log_share switches)) st)
    = Returned (res, Exhausted) ->
  exists r2 st',
    step1_ols_residualize switches st = (Returned (res, r2), st') /\
    res = Nat.iter iteration_cap sweep
            (combine switches (map log_share switches)) /\
    shown_warnings st' = shown_warnings st /\
    stdout st' = stdout st ++ [banner_step1].
Proof.
  intros Hfilter Hcap.
  assert (Hne : switches <> []).
  { intro E. rewrite E in Hcap. discriminate Hcap. }
  assert (Hl0 : combine switches (map log_share switches) <> []).
  { destruct switches; [congruence | discriminate]. }
  destruct (demean_loop_spec iteration_cap _ Hl0)
    as [res' [ex [k [Hloop [_ [Eres [Hex _]]]]]]].
  rewrite Hloop in Hcap. simpl in Hcap. injection Hcap as -> ->.
  rewrite (Hex eq_refl) in Eres.
  eexists. eexists. split; [apply (step1_runs switches res Exhausted st Hne Hloop)|].
  split; [exact Eres|].
  unfold np_divide, Py.bind, Py.warn, Py.ret, Py.print.
  destruct (Qeq_bool _ 0); simpl; [rewrite Hfilter|]; split; reflexivity.
Qed.

Lemma cap_reached_returns_silently_witness :
  exists res r2 st',
    step1_ols_residualize Sample.slow_chain at_main = (Returned (res, r2), st') /\
    res = Nat.iter iteration_cap sweep
            (combine Sample.slow_chain (map log_share Sample.slow_chain)) /\
    shown_warnings st' = shown_warnings at_main /\
    stdout st' = stdout at_main ++ [banner_step1].
Proof.
  eexists.
  apply (cap_reached_returns_silently Sample.slow_chain _ at_main).
  - reflexivity.
  - vm_compute. reflexivity.
Defined.

(** C5 as stated fails: on the chain of six origins the loop runs its 50
    passes without meeting the tolerance, and step 1 returns with no
    warning shown and nothing printed but its banner. *)
Lemma no_convergence_warning_is_surfaced :
  exists res r2,
    demean_loop iteration_cap
        (combine Sample.slow_chain (map log_share Sample.slow_chain)) at_main
      = (Returned (res, Exhausted), at_main) /\
    step1_ols_residualize Sample.slow_chain at_main
      = (Returned (res, r2), mk_pystate ActionIgnore [] [banner_step1]).
Proof.
  eexists. eexists. split; vm_compute; reflexivity.
Qed.

(** ** Group means after demeaning *)

Section DemeanedGroups.

Context {A : Type}.
Variable key : A -> Z.

(** A test on the row label commutes with demeaning. *)
Lemma filter_demean (phi : A -> bool) (l : list (A * Q)) :
  filter (fun p => phi (fst p)) (demean key l)
  = map (fun p => (fst p, Qred (snd p - group_mean key l (key (fst p)))))
        (filter (fun p => phi (fst p)) l).
Proof.
  unfold demean. generalize (group_mean key l). intro g.
  induction l as [|x t IH]; [reflexivity|].
  cbn [map filter fst].
  destruct (phi (fst x)); cbn [map]; now rewrite IH.
Qed.

Lemma qsum_filter_indicator {B} (phi : B -> bool) (f : B -> Q) (l : list B) :
  qsum (map f (filter phi l))
  == qsum (map (fun x => (if phi x then 1 else 0) * f x) l).
Proof.
  induction l as [|x t IH]; simpl; [reflexivity|].
  destruct (phi x); simpl; rewrite IH; ring.
Qed.

(** Over any set of whole groups the demeaned values sum to zero. *)
Lemma demeaned_groups_sum_zero (phi : Z -> bool) (l : list (A * Q)) :
  qsum (map snd (filter (fun p => phi (key (fst p))) (demean key l))) == 0.
Proof.
  rewrite (filter_demean (fun a => phi (key a))), map_map. cbn [snd].
  rewrite (qsum_map_ext _ (fun p => snd p - group_mean key l (key (fst p)))).
  2:{ intros p _. apply Qred_correct. }
  rewrite (qsum_filter_indicator (fun p => phi (key (fst p)))).
  apply (deviations_orthogonal key (fun k => if phi k then 1 else 0)).
Qed.

(** In particular every group mean of the demeaned column is zero. *)
Lemma demeaned_group_mean_zero (l : list (A * Q)) k :
  group_mean key (demean key l) k == 0.
Proof.
  unfold group_mean, group.
  pose proof (demeaned_groups_sum_zero (fun z => (z =? k)%Z) l) as H.
  unfold in_group. rewrite H. unfold Qdiv. ring.
Qed.

End DemeanedGroups.

(** ** Level sets of the group means *)









Section LevelSets.

Variable L : list (pair_obs * Q).
Variables a b : Z -> Q.
Variable T : Q.

Hypothesis T_pos : 0 < T.

(** On every row the origin value and the destination value cancel up to
    [T]. *)
Hypothesis edge :
  forall p, In p L ->
            - T < a (origin (fst p)) + b (dest (fst p)) < T.

(** Over a set of rows that is at once a union of origin groups and a union
    of destination groups, the destination values sum to zero. *)
Hypothesis balance :
  forall phi psi : Z -> bool,
    (forall p, In p L -> phi (origin (fst p)) = psi (dest (fst p))) ->
    qsum (map (fun p => (if psi (dest (fst p)) then 1 else 0)
                        * b (dest (fst p))) L) == 0.








End LevelSets.

(** ** A pass that moved no row by the tolerance *)

Lemma combine_map_self {B C} (f : B -> C) (l : list B) :
  combine (map f l) l = map (fun x => (f x, x)) l.
Proof.
  induction l as [|x t IH]; simpl; [reflexivity | now rewrite IH].
Qed.

Lemma sweep_keys l : map fst (sweep l) = map fst l.
Proof. unfold sweep. now rewrite !demean_keys. Qed.

Lemma sweeps_keys k l : map fst (Nat.iter k sweep l) = map fst l.
Proof.
  induction k as [|k IH]; simpl; [reflexivity|]. now rewrite sweep_keys.
Qed.

Lemma frame_keys (switches : list pair_obs) :
  map fst (combine switches (map log_share switches)) = switches.
Proof.
  induction switches as [|x t IH]; simpl; [reflexivity | now rewrite IH].
Qed.



Section OnePass.

Variable prev : list (pair_obs * Q).

Let a (o : Z) : Q := group_mean origin prev o.
Let b (d : Z) : Q := group_mean dest (demean origin prev) d.

Hypothesis small_change :
  forall q, In q (combine (sweep prev) prev) ->
            Qabs (snd (fst q) - snd (snd q)) < tolerance.







End OnePass.




(** ** The tally computes the group means *)


Section TallyFacts.

Context {A : Type}.
Variable key : A -> Z.




End TallyFacts.


Lemma loop_breaks_at_first_pass n l m st :
  max_abs_change (sweep l) l st = (Returned m, st) ->
  Qltb m tolerance = true ->
  demean_loop (S n) l st = (Returned (sweep l, Break), st).
Proof.
  intros Hmax Hlt. cbn [demean_loop]. unfold Py.bind.
  rewrite Hmax, Hlt. reflexivity.
Qed.





(** * Further properties of the script *)

(** ** What the builder returns *)

Lemma filter_map_inv {A B} (f : A -> option B) (l : list A) (y : B) :
  In y (filter_map f l) -> exists x, In x l /\ f x = Some y.
Proof.
  induction l as [|a t IH]; simpl; [contradiction|].
  destruct (f a) eqn:E.
  - intros [<-|H]; [exists a; auto|].
    destruct (IH H) as [x [Hx Fx]]. exists x. auto.
  - intro H. destruct (IH H) as [x [Hx Fx]]. exists x. auto.
Qed.

Lemma filter_map_length {A B} (f : A -> option B) (l : list A) :
  (length (filter_map f l) <= length l)%nat.
Proof.
  induction l as [|a t IH]; simpl; [lia|]. destruct (f a); simpl; lia.
Qed.

Lemma merged_row_inv skills switches stayers r :
  In r (merged_table skills switches stayers) ->
  In (fst r) switches /\ In (snd r) stayers /\
  occ (snd r) = occ_origin (fst r) /\
  isin (skill_occs skills) (occ_origin (fst r)) = true /\
  isin (skill_occs skills) (occ_dest (fst r)) = true.
Proof.
  unfold merged_table, merge. intro H.
  apply in_flat_map in H. destruct H as [s [Hs Hr]].
  apply in_map_iff in Hr. destruct Hr as [t [<- Ht]]. simpl.
  unfold filter_switches in Hs. apply filter_In in Hs. destruct Hs as [Hs Hb].
  apply andb_true_iff in Hb. destruct Hb as [Ho Hd].
  apply filter_In in Ht. destruct Ht as [Ht Ek].
  unfold filter_stayers in Ht. apply filter_In in Ht. destruct Ht as [Ht _].
  apply Z.eqb_eq in Ek. auto.
Qed.

Section BuilderInversion.

Variable ln : Q -> Q.

Lemma np_log_finite_inv x y :
  np_log ln x = Fin y -> exists s, x = Fin s /\ 0 < s /\ y = ln s.
Proof.
  destruct x as [q| | |]; simpl; try discriminate.
  destruct (Qltb 0 q) eqn:E.
  - intro H. injection H as <-. exists q. apply Qltb_lt in E. auto.
  - destruct (Qeq_bool q 0); discriminate.
Qed.

Lemma switch_share_finite_inv floor r s :
  switch_share floor r = Fin s -> 0 < s ->
  ~ weighted_stayers (snd r) == 0 /\
  (s = weighted_switches (fst r) / weighted_stayers (snd r) \/
   (weighted_switches (fst r) == 0 /\
    exists m, floor = Fin m /\ s = m / weighted_stayers (snd r))).
Proof.
  unfold switch_share, raw_share. simpl.
  destruct (Qeq_bool (weighted_stayers (snd r)) 0) eqn:Ez.
  - intros H _. exfalso.
    destruct (weighted_switches (fst r) ?= 0); simpl in H; discriminate H.
  - assert (Hnz : ~ weighted_stayers (snd r) == 0).
    { intro E. apply Qeq_bool_iff in E. congruence. }
    simpl.
    destruct (Qeq_bool (weighted_switches (fst r) / weighted_stayers (snd r)) 0)
      eqn:Eq.
    + intros H Hs. split; [exact Hnz|]. right.
      apply Qeq_bool_iff in Eq.
      assert (Hw : weighted_switches (fst r) == 0).
      { rewrite <- (Qmult_div_r (weighted_switches (fst r))
                       (weighted_stayers (snd r)) Hnz).
        rewrite Eq. ring. }
      split; [exact Hw|].
      destruct floor as [m| | |]; simpl in H; rewrite ?Ez in H;
        try discriminate H.
      * injection H as <-. exists m. auto.
      * destruct (weighted_stayers (snd r) ?= 0); discriminate H.
      * destruct (weighted_stayers (snd r) ?= 0); discriminate H.
    + intros H _. injection H as <-. split; [exact Hnz|]. now left.
Qed.

Lemma returned_row_inv skills switches stayers p :
  In p (regression_rows ln skills switches stayers) ->
  exists r s,
    In r (merged_table skills switches stayers) /\
    not_self_pair r = true /\
    p = mk_pair (occ_origin (fst r)) (occ_dest (fst r))
                (weighted_switches (fst r)) (weighted_stayers (snd r)) (ln s) /\
    0 < s /\
    switch_share (min_nonzero (merged_table skills switches stayers)) r = Fin s.
Proof.
  unfold regression_rows. intro H.
  apply filter_map_inv in H. destruct H as [r [Hr Hk]].
  apply filter_In in Hr. destruct Hr as [Hr Hns].
  unfold keep_finite in Hk.
  destruct (log_switch_share ln _ r) as [y| | |] eqn:El; try discriminate Hk.
  injection Hk as <-.
  unfold log_switch_share in El.
  destruct (np_log_finite_inv _ _ El) as [s [Es [Hs Ey]]].
  exists r, s. rewrite Ey. auto.
Qed.

(** X1. Every pair the builder returns joins distinct occupations that
    both have a skill profile, comes from a row of the switching matrix,
    and carries the stayer count of a row of the stayer table for its
    origin. *)
Theorem returned_pairs_are_joined_rows skills switches stayers p :
  In p (regression_rows ln skills switches stayers) ->
  origin p <> dest p /\
  isin (skill_occs skills) (origin p) = true /\
  isin (skill_occs skills) (dest p) = true /\
  In (mk_switch (origin p) (dest p) (switches_w p)) switches /\
  In (mk_stayer (origin p) (stayers_w p)) stayers.
Proof.
  intro H. destruct (returned_row_inv _ _ _ _ H) as [r [s [Hr [Hns [-> _]]]]].
  destruct (merged_row_inv _ _ _ _ Hr) as [Hsw [Hst [Eo [Ho Hd]]]].
  simpl. unfold not_self_pair in Hns. apply negb_true_iff in Hns.
  apply Z.eqb_neq in Hns.
  destruct r as [[o d w] [k v]]. simpl in *. subst k. auto.
Qed.

(** X2. Every returned pair has a non-zero stayer count, and its
    [log_switch_share] is the logarithm of a positive share: the quotient
    of its switches by its stayers, or, when its switches are zero, the
    quotient of the floor by its stayers. *)
Theorem returned_shares_are_positive skills switches stayers p :
  In p (regression_rows ln skills switches stayers) ->
  ~ stayers_w p == 0 /\
  exists s,
    0 < s /\ log_share p = ln s /\
    (s = switches_w p / stayers_w p \/
     (switches_w p == 0 /\
      exists m, min_nonzero (merged_table skills switches stayers) = Fin m /\
                s = m / stayers_w p)).
Proof.
  intro H. destruct (returned_row_inv _ _ _ _ H) as [r [s [_ [_ [-> [Hs Hsh]]]]]].
  destruct (switch_share_finite_inv _ _ _ Hsh Hs) as [Hnz Hcases].
  simpl. split; [exact Hnz|]. exists s. auto.
Qed.

(** X3. A pair of distinct occupations with positive switches and positive
    stayers is returned with [log_switch_share = ln (switches / stayers)]:
    the floor does not touch it. *)
Theorem positive_pair_keeps_its_share skills switches stayers r :
  In r (merged_table skills switches stayers) ->
  0 < weighted_switches (fst r) ->
  0 < weighted_stayers (snd r) ->
  occ_origin (fst r) <> occ_dest (fst r) ->
  In (mk_pair (occ_origin (fst r)) (occ_dest (fst r))
              (weighted_switches (fst r)) (weighted_stayers (snd r))
              (ln (weighted_switches (fst r) / weighted_stayers (snd r))))
     (regression_rows ln skills switches stayers).
Proof.
  intros Hr Hw Hs Hne. unfold regression_rows.
  apply filter_map_In with (x := r).
  - apply filter_In. split; [exact Hr|].
    unfold not_self_pair. apply negb_true_iff. now apply Z.eqb_neq.
  - unfold keep_finite, log_switch_share, switch_share, raw_share. simpl.
    rewrite (Qeq_bool_false (weighted_stayers (snd r)) 0) by lra. simpl.
    assert (Hq : 0 < weighted_switches (fst r) / weighted_stayers (snd r)).
    { apply Qlt_shift_div_l; lra. }
    rewrite Qeq_bool_false by lra. simpl.
    apply Qltb_lt in Hq. rewrite Hq. reflexivity.
Qed.

(** X4. When every row of the switching matrix has zero switches there is
    no floor to substitute, every logarithm is missing, and the builder
    returns an empty frame. *)
Theorem all_zero_switches_give_empty_frame skills switches stayers :
  (forall r, In r switches -> weighted_switches r == 0) ->
  regression_rows ln skills switches stayers = [].
Proof.
  intro Hz.
  destruct (regression_rows ln skills switches stayers) as [|p t] eqn:E;
    [reflexivity|].
  exfalso.
  assert (Hp : In p (regression_rows ln skills switches stayers))
    by (rewrite E; now left).
  destruct (returned_row_inv _ _ _ _ Hp) as [r [s [Hr [_ [_ [Hs Hsh]]]]]].
  assert (Hall : forall r', In r' (merged_table skills switches stayers) ->
                            weighted_switches (fst r') <= 0).
  { intros r' Hr'. destruct (merged_row_inv _ _ _ _ Hr') as [Hsw _].
    rewrite (Hz _ Hsw). lra. }
  rewrite (min_nonzero_none _ Hall) in Hsh.
  destruct (switch_share_finite_inv _ _ _ Hsh Hs) as [Hnz [Es|[_ [m [Em _]]]]].
  - destruct (merged_row_inv _ _ _ _ Hr) as [Hsw _].
    assert (s == 0); [|lra].
    rewrite Es, (Hz _ Hsw). unfold Qdiv. ring.
  - discriminate Em.
Qed.

End BuilderInversion.

Lemma zero_or_one_match {A} (f : A -> Z) (l : list A) k :
  NoDup (map f l) ->
  (length (filter (fun t => (f t =? k)%Z) l) <= 1)%nat.
Proof.
  induction l as [|x t IH]; simpl; intro Hnd; [lia|].
  inversion Hnd as [|? ? Hnotin Hnd']; subst.
  destruct (f x =? k)%Z eqn:E; [|now apply IH].
  apply Z.eqb_eq in E. simpl.
  rewrite (filter_nil_of_all_false (fun t => (f t =? k)%Z) t); [simpl; lia|].
  intros y Hy. apply Z.eqb_neq. intro Ey. apply Hnotin.
  rewrite E, <- Ey. now apply in_map.
Qed.

Lemma NoDup_map_filter {A} (f : A -> Z) (p : A -> bool) (l : list A) :
  NoDup (map f l) -> NoDup (map f (filter p l)).
Proof.
  induction l as [|x t IH]; simpl; intro Hnd; [constructor|].
  inversion Hnd as [|? ? Hnotin Hnd']; subst.
  destruct (p x); simpl; [|now apply IH].
  constructor; [|now apply IH].
  intro Hin. apply Hnotin. apply in_map_iff in Hin.
  destruct Hin as [y [Ey Hy]]. apply filter_In in Hy.
  rewrite <- Ey. apply in_map. tauto.
Qed.

Lemma flat_map_length_le {A B} (f : A -> list B) (l : list A) :
  (forall x, In x l -> (length (f x) <= 1)%nat) ->
  (length (flat_map f l) <= length l)%nat.
Proof.
  induction l as [|x t IH]; simpl; intro H; [lia|].
  rewrite length_app.
  pose proof (H x (or_introl eq_refl)).
  assert (length (flat_map f t) <= length t)%nat
    by (apply IH; intros y Hy; apply H; now right).
  lia.
Qed.

(** X5. When the stayer table has one row per occupation, the builder
    returns at most one pair per row of the switching matrix. *)
Theorem one_stayer_row_gives_at_most_one_pair ln skills switches stayers :
  NoDup (map occ stayers) ->
  (length (regression_rows ln skills switches stayers) <= length switches)%nat.
Proof.
  intro Hnd. unfold regression_rows.
  eapply Nat.le_trans; [apply filter_map_length|].
  eapply Nat.le_trans; [apply filter_length_le|].
  unfold merged_table, merge.
  eapply Nat.le_trans; [apply flat_map_length_le|].
  - intros s _. rewrite length_map.
    apply (zero_or_one_match occ). unfold filter_stayers.
    now apply NoDup_map_filter.
  - unfold filter_switches. apply filter_length_le.
Qed.

Lemma one_stayer_row_gives_at_most_one_pair_witness :
  (length (regression_rows Sample.ln Sample.skills Sample.switches Sample.stayers)
   <= length Sample.switches)%nat.
Proof.
  apply (one_stayer_row_gives_at_most_one_pair Sample.ln Sample.skills
           Sample.switches Sample.stayers).
  simpl. repeat constructor; simpl; intuition discriminate.
Defined.

Lemma returned_pairs_are_joined_rows_witness :
  let p := mk_pair 1 2 100 1000 (Sample.ln (100 / 1000)) in
  In p (regression_rows Sample.ln Sample.skills Sample.switches Sample.stayers) /\
  origin p <> dest p /\
  isin (skill_occs Sample.skills) (origin p) = true /\
  isin (skill_occs Sample.skills) (dest p) = true /\
  In (mk_switch (origin p) (dest p) (switches_w p)) Sample.switches /\
  In (mk_stayer (origin p) (stayers_w p)) Sample.stayers.
Proof.
  intro p.
  assert (Hp : In p (regression_rows Sample.ln Sample.skills Sample.switches
                       Sample.stayers)) by (vm_compute; tauto).
  split; [exact Hp|].
  exact (returned_pairs_are_joined_rows Sample.ln Sample.skills Sample.switches
           Sample.stayers p Hp).
Defined.

Lemma returned_shares_are_positive_witness :
  let p := mk_pair 1 3 0 1000 (Sample.ln (7 / 1000)) in
  In p (regression_rows Sample.ln Sample.skills Sample.switches Sample.stayers) /\
  ~ stayers_w p == 0 /\
  exists s,
    0 < s /\ log_share p = Sample.ln s /\
    (s = switches_w p / stayers_w p \/
     (switches_w p == 0 /\
      exists m, min_nonzero (merged_table Sample.skills Sample.switches
                               Sample.stayers) = Fin m /\
                s = m / stayers_w p)).
Proof.
  intro p.
  assert (Hp : In p (regression_rows Sample.ln Sample.skills Sample.switches
                       Sample.stayers)) by (vm_compute; tauto).
  split; [exact Hp|].
  exact (returned_shares_are_positive Sample.ln Sample.skills Sample.switches
           Sample.stayers p Hp).
Defined.

Lemma positive_pair_keeps_its_share_witness :
  In (mk_pair 2 3 50 500 (Sample.ln (50 / 500)))
     (regression_rows Sample.ln Sample.skills Sample.switches Sample.stayers).
Proof.
  apply (positive_pair_keeps_its_share Sample.ln Sample.skills Sample.switches
           Sample.stayers (mk_switch 2 3 50, mk_stayer 2 500)).
  - vm_compute. tauto.
  - reflexivity.
  - reflexivity.
  - discriminate.
Defined.

Lemma all_zero_switches_give_empty_frame_witness :
  regression_rows Sample.ln Sample.skills
    [mk_switch 1 2 0; mk_switch 2 3 0] Sample.stayers = [].
Proof.
  apply (all_zero_switches_give_empty_frame Sample.ln Sample.skills
           [mk_switch 1 2 0; mk_switch 2 3 0] Sample.stayers).
  intros r [<-|[<-|[]]]; reflexivity.
Defined.

(** ** What step 1 returns *)

Lemma step1_empty st : fst (step1_ols_residualize [] st) = Raised "ValueError".
Proof. reflexivity. Qed.

(** Step 1 returns only on a non-empty frame, and then with the result of
    between 1 and 50 passes. *)
Lemma step1_returns_inv switches res r2 st st' :
  step1_ols_residualize switches st = (Returned (res, r2), st') ->
  switches <> [] /\
  exists k, (1 <= k <= iteration_cap)%nat /\
            res = Nat.iter k sweep (combine switches (map log_share switches)) /\
            r2 = Float.sub (Fin 1)
                   (Float.div (Fin (ss_resid res))
                              (Fin (ss_total (map log_share switches)))).
Proof.
  intro H.
  assert (Hne : switches <> []).
  { intro E. rewrite E in H. discriminate H. }
  split; [exact Hne|].
  assert (Hl0 : combine switches (map log_share switches) <> []).
  { destruct switches; [congruence | discriminate]. }
  destruct (demean_loop_spec iteration_cap _ Hl0)
    as [res' [ex [k [Hloop [Hk [Eres [_ [_ Hk1]]]]]]]].
  rewrite (step1_runs switches res' ex st Hne Hloop) in H.
  injection H as H1 H2 _. subst res'.
  exists k. split; [|split].
  - split; [apply Hk1; unfold iteration_cap; lia | exact Hk].
  - exact Eres.
  - now rewrite <- H2.
Qed.

(** On a non-empty frame step 1 returns; the rows come back in order, one
    line is printed, the warning filter is left alone and, under the
    script's filter, no warning is recorded. *)
Lemma step1_returns switches st :
  switches <> [] ->
  exists res r2 st',
    step1_ols_residualize switches st = (Returned (res, r2), st') /\
    map fst res = switches /\
    stdout st' = stdout st ++ [banner_step1] /\
    warn_filter st' = warn_filter st /\
    (warn_filter st = ActionIgnore -> shown_warnings st' = shown_warnings st).
Proof.
  intro Hne.
  assert (Hl0 : combine switches (map log_share switches) <> []).
  { destruct switches; [congruence | discriminate]. }
  destruct (demean_loop_spec iteration_cap _ Hl0)
    as [res [ex [k [Hloop [_ [Eres _]]]]]].
  exists res. eexists. eexists.
  split; [exact (step1_runs switches res ex st Hne Hloop)|].
  split; [rewrite Eres, sweeps_keys; apply frame_keys|].
  unfold np_divide, Py.bind, Py.warn, Py.ret, Py.print.
  destruct (Qeq_bool _ 0); simpl.
  - destruct (warn_filter st) eqn:E; simpl; repeat split; auto; discriminate.
  - repeat split; auto.
Qed.

(** X6. On a non-empty frame step 1 always returns, and the frame it
    returns has the rows of its input, in the same order, each with one
    residual. *)
Theorem step1_keeps_the_rows switches st :
  switches <> [] ->
  exists res r2 st',
    step1_ols_residualize switches st = (Returned (res, r2), st') /\
    map fst res = switches /\
    stdout st' = stdout st ++ [banner_step1].
Proof.
  intro Hne.
  destruct (step1_returns switches st Hne)
    as [res [r2 [st' [Hrun [Hrows [Hout _]]]]]].
  exists res, r2, st'. auto.
Qed.

Lemma step1_keeps_the_rows_witness :
  exists res r2 st',
    step1_ols_residualize Sample.two_by_two at_main = (Returned (res, r2), st') /\
    map fst res = Sample.two_by_two /\
    stdout st' = stdout at_main ++ [banner_step1].
Proof.
  apply (step1_keeps_the_rows Sample.two_by_two at_main). discriminate.
Defined.

Lemma filter_all {A} (l : list A) : filter (fun _ => true) l = l.
Proof. induction l as [|x t IH]; simpl; [reflexivity | now rewrite IH]. Qed.

(** X7. Whichever way the loop ends, the residuals step 1 returns have
    mean zero within every destination group, and they sum to zero. *)
Theorem step1_destination_means_vanish switches res r2 st st' :
  step1_ols_residualize switches st = (Returned (res, r2), st') ->
  (forall d, group_mean dest res d == 0) /\ qsum (map snd res) == 0.
Proof.
  intro H. destruct (step1_returns_inv _ _ _ _ _ H) as [_ [k [[Hk _] [Eres _]]]].
  destruct k as [|k]; [lia|]. simpl in Eres.
  set (prev := Nat.iter k sweep (combine switches (map log_share switches))) in *.
  rewrite Eres. unfold sweep. split.
  - intro d. apply demeaned_group_mean_zero.
  - pose proof (demeaned_groups_sum_zero dest (fun _ => true)
                  (demean origin prev)) as Hz.
    rewrite filter_all in Hz. exact Hz.
Qed.

Lemma step1_destination_means_vanish_witness :
  exists res r2 st',
    step1_ols_residualize Sample.slow_chain at_main = (Returned (res, r2), st') /\
    (forall d, group_mean dest res d == 0) /\ qsum (map snd res) == 0.
Proof.
  destruct (step1_returns Sample.slow_chain at_main)
    as [res [r2 [st' [Hrun _]]]]; [discriminate|].
  exists res, r2, st'. split; [exact Hrun|].
  exact (step1_destination_means_vanish Sample.slow_chain res r2 at_main st' Hrun).
Defined.

(** X8. No pass of the loop increases the residual sum of squares, and
    within a pass neither of the two demeanings does. *)
Theorem passes_never_increase_the_residual_ss k l :
  ss_resid (Nat.iter (S k) sweep l) <= ss_resid (Nat.iter k sweep l) /\
  ss_resid (demean dest (demean origin l)) <= ss_resid (demean origin l) /\
  ss_resid (demean origin l) <= ss_resid l.
Proof.
  split; [|split].
  - simpl. apply sweep_ss_nonincreasing.
  - apply demean_ss_nonincreasing.
  - apply demean_ss_nonincreasing.
Qed.

(** ** Demeaning as a projection *)

Lemma Qred_twice q : Qred (Qred q) = Qred q.
Proof. apply Qred_complete, Qred_correct. Qed.

Section ProjectionFacts.

Context {A : Type}.
Variable key : A -> Z.

(** X9. Demeaning twice by the same key is demeaning once. *)
Theorem demean_idempotent (l : list (A * Q)) :
  demean key (demean key l) = demean key l.
Proof.
  unfold demean at 1.
  transitivity (map (fun p : A * Q => p) (demean key l)); [|apply map_id].
  apply map_ext_in. intros p Hp.
  unfold demean in Hp. apply in_map_iff in Hp. destruct Hp as [p0 [<- _]].
  cbn [fst snd]. f_equal.
  rewrite <- (Qred_twice (snd p0 - group_mean key l (key (fst p0)))) at 2.
  apply Qred_complete.
  rewrite (demeaned_group_mean_zero key l). ring.
Qed.

Lemma filter_labels (phi : A -> bool) (h : A * Q -> A * Q) (l : list (A * Q)) :
  (forall p, fst (h p) = fst p) ->
  filter (fun p => phi (fst p)) (map h l)
  = map h (filter (fun p => phi (fst p)) l).
Proof.
  intro Hh. induction l as [|x t IH]; [reflexivity|].
  cbn [map filter]. rewrite Hh.
  destruct (phi (fst x)); cbn [map]; now rewrite IH.
Qed.

(** X10. Demeaning by a key removes any additive function of that key:
    adding [f (key row)] to every value of the column leaves the demeaned
    column unchanged. *)
Theorem demean_removes_additive_effects (f : Z -> Q) (l : list (A * Q)) :
  demean key (map (fun p => (fst p, snd p + f (key (fst p)))) l)
  = demean key l.
Proof.
  set (shift := fun p : A * Q => (fst p, snd p + f (key (fst p)))).
  unfold demean at 1. rewrite map_map. unfold demean.
  apply map_ext_in. intros p Hp. cbn [shift fst snd]. f_equal.
  apply Qred_complete.
  set (k := key (fst p)).
  assert (Hg : group key (map shift l) k
               = map (fun q => snd q + f k) (filter (in_group key k) l)).
  { unfold group, in_group.
    rewrite (filter_labels (fun a => (key a =? k)%Z) shift) by reflexivity.
    rewrite map_map. apply map_ext_in. intros q Hq.
    apply filter_In in Hq. destruct Hq as [_ Hq]. apply Z.eqb_eq in Hq.
    cbn [shift snd fst]. now rewrite Hq. }
  assert (Hin : In p (filter (in_group key k) l)).
  { apply filter_In. split; [exact Hp|]. unfold in_group. apply Z.eqb_refl. }
  assert (Hn : 0 < qlen (filter (in_group key k) l)).
  { apply qlen_pos. intro E. rewrite E in Hin. contradiction. }
  unfold group_mean. rewrite Hg. unfold group.
  rewrite !qlen_map, qsum_map_add, qsum_map_const.
  rewrite <- (map_map snd (fun x => x)), map_id.
  field. lra.
Qed.

End ProjectionFacts.

(** ** Saturated and constant inputs *)

Lemma Qred_zero x : x == 0 -> Qred x = 0.
Proof. intro E. now rewrite (Qred_complete x 0 E). Qed.

Lemma qsum_zero (l : list Q) : (forall v, In v l -> v == 0) -> qsum l == 0.
Proof.
  induction l as [|x t IH]; intro H; simpl; [reflexivity|].
  rewrite (H x (or_introl eq_refl)), IH; [ring|].
  intros v Hv. apply H. now right.
Qed.

Section ZeroColumns.

Context {A : Type}.
Variable key : A -> Z.

(** A column whose groups have each the mean of their rows' values is
    demeaned to zero. *)
Lemma demean_to_zero (l : list (A * Q)) :
  (forall p, In p l -> group_mean key l (key (fst p)) == snd p) ->
  all_zero (demean key l).
Proof.
  intro H. unfold all_zero, demean. apply Forall_forall.
  intros q Hq. apply in_map_iff in Hq. destruct Hq as [p [<- Hp]].
  cbn [snd]. apply Qred_zero. rewrite (H p Hp). ring.
Qed.

Lemma group_mean_of_zero (l : list (A * Q)) k :
  all_zero l -> group_mean key l k == 0.
Proof.
  intro Hz. unfold group_mean.
  rewrite (qsum_zero (group key l k)); [unfold Qdiv; ring|].
  intros v Hv. unfold group in Hv. apply in_map_iff in Hv.
  destruct Hv as [p [<- Hp]]. apply filter_In in Hp. destruct Hp as [Hp _].
  rewrite (proj1 (Forall_forall _ l) Hz p Hp). reflexivity.
Qed.

Lemma demean_zero_fixed (l : list (A * Q)) :
  all_zero l -> demean key l = l.
Proof.
  intro Hz. unfold demean.
  transitivity (map (fun p : A * Q => p) l); [|apply map_id].
  apply map_ext_in. intros p Hp.
  pose proof (proj1 (Forall_forall _ l) Hz p Hp) as E.
  destruct p as [a v]. cbn [fst snd] in *. subst v. f_equal.
  apply Qred_zero. rewrite (group_mean_of_zero l (key a) Hz). ring.
Qed.

(** Groups of one row. *)
Lemma singleton_group (l : list (A * Q)) p :
  NoDup (map (fun q => key (fst q)) l) -> In p l ->
  group key l (key (fst p)) = [snd p].
Proof.
  unfold group, in_group.
  induction l as [|x t IH]; simpl; [contradiction|].
  intros Hnd Hin. inversion Hnd as [|? ? Hnot Hnd']; subst.
  destruct Hin as [->|Hin].
  - rewrite Z.eqb_refl. simpl. f_equal.
    rewrite filter_nil_of_all_false; [reflexivity|].
    intros y Hy. apply Z.eqb_neq. intro E. apply Hnot. rewrite <- E.
    now apply (in_map (fun q => key (fst q))).
  - destruct (key (fst x) =? key (fst p))%Z eqn:E.
    + exfalso. apply Z.eqb_eq in E. apply Hnot. rewrite E.
      now apply (in_map (fun q => key (fst q))).
    + now apply IH.
Qed.

Lemma demean_distinct_keys (l : list (A * Q)) :
  NoDup (map (fun q => key (fst q)) l) -> all_zero (demean key l).
Proof.
  intro Hnd. apply demean_to_zero. intros p Hp.
  unfold group_mean. rewrite (singleton_group l p Hnd Hp).
  simpl. unfold qlen. simpl. field.
Qed.


End ZeroColumns.

Lemma sweep_zero_fixed l : all_zero l -> sweep l = l.
Proof.
  intro Hz. unfold sweep. rewrite (demean_zero_fixed origin l Hz).
  now apply demean_zero_fixed.
Qed.

Lemma ss_resid_of_zero {A} (l : list (A * Q)) : all_zero l -> ss_resid l == 0.
Proof.
  intro Hz. unfold ss_resid. apply qsum_zero.
  intros v Hv. apply in_map_iff in Hv. destruct Hv as [p [<- Hp]].
  rewrite (proj1 (Forall_forall _ l) Hz p Hp). reflexivity.
Qed.

(** Once a pass has brought every residual to zero the loop returns that
    pass: the next convergence test sees no change. *)
Lemma loop_returns_zero_pass n l :
  l <> [] -> all_zero (sweep l) ->
  exists ex, forall st,
    demean_loop (S (S n)) l st = (Returned (sweep l, ex), st).
Proof.
  intros Hne Hz.
  destruct (max_abs_change_spec (sweep l) l (combine_sweep_nonempty l Hne))
    as [m [Hrun _]].
  destruct (Qltb m tolerance) eqn:Em.
  - exists Break. intro st. cbn [demean_loop]. unfold Py.bind.
    rewrite Hrun, Em. reflexivity.
  - exists Break. intro st.
    change (demean_loop (S (S n)) l st)
      with (Py.bind (max_abs_change (sweep l) l)
              (fun change => if Qltb change tolerance
                             then Py.ret (sweep l, Break)
                             else demean_loop (S n) (sweep l)) st).
    unfold Py.bind at 1. rewrite Hrun, Em.
    assert (Hne' : combine (sweep (sweep l)) (sweep l) <> []).
    { apply combine_sweep_nonempty. now apply sweep_nonempty. }
    destruct (max_abs_change_spec _ _ Hne') as [m' [Hrun' [_ [p [Hp Em']]]]].
    cbn [demean_loop]. unfold Py.bind. rewrite Hrun'.
    rewrite (sweep_zero_fixed _ Hz) in *.
    assert (Hm : Qltb m' tolerance = true).
    { apply Qltb_lt. rewrite Em'.
      rewrite <- (map_id (sweep l)) in Hp at 1.
      rewrite combine_map_self in Hp. apply in_map_iff in Hp.
      destruct Hp as [q [<- _]]. cbn [fst snd].
      assert (E : snd q - snd q == 0) by ring.
      rewrite E. reflexivity. }
    rewrite Hm. reflexivity.
Qed.

Lemma step1_on_zero_pass switches st :
  switches <> [] ->
  all_zero (sweep (combine switches (map log_share switches))) ->
  exists res r2 st',
    step1_ols_residualize switches st = (Returned (res, r2), st') /\
    all_zero res /\
    r2 = Float.sub (Fin 1)
           (Float.div (Fin (ss_resid res))
                      (Fin (ss_total (map log_share switches)))) /\
    st' = snd (np_divide (ss_resid res) (ss_total (map log_share switches))
                 (snd (Py.print banner_step1 st))).
Proof.
  intros Hne Hz.
  assert (Hl0 : combine switches (map log_share switches) <> []).
  { destruct switches; [congruence | discriminate]. }
  destruct (loop_returns_zero_pass 48 _ Hl0 Hz) as [ex Hloop].
  eexists. eexists. eexists. split; [|split; [exact Hz|split; reflexivity]].
  exact (step1_runs switches _ ex st Hne Hloop).
Qed.

(** X11. When no destination occurs twice in the frame, or no origin does,
    the fixed effects absorb everything: step 1 returns a zero residual on
    every row, and [r2_fe] is 1 as soon as the total variance is not zero. *)
Theorem saturated_design_leaves_no_residual switches st :
  switches <> [] ->
  NoDup (map dest switches) \/ NoDup (map origin switches) ->
  exists res r2 st',
    step1_ols_residualize switches st = (Returned (res, r2), st') /\
    Forall (fun p => snd p = 0) res /\
    (~ ss_total (map log_share switches) == 0 -> Float.feq r2 (Fin 1)).
Proof.
  intros Hne Hnd.
  set (l0 := combine switches (map log_share switches)).
  assert (Hlabels : forall (f : pair_obs -> Z) l,
             map (fun q : pair_obs * Q => f (fst q)) l = map f (map fst l)).
  { intros f l. now rewrite map_map. }
  assert (Hz : all_zero (sweep l0)).
  { unfold sweep. destruct Hnd as [Hd|Ho].
    - apply demean_distinct_keys.
      rewrite Hlabels, demean_keys. unfold l0. now rewrite frame_keys.
    - assert (Hzo : all_zero (demean origin l0)).
      { apply demean_distinct_keys.
        rewrite Hlabels. unfold l0. now rewrite frame_keys. }
      now rewrite (demean_zero_fixed dest _ Hzo). }
  destruct (step1_on_zero_pass switches st Hne Hz)
    as [res [r2 [st' [Hrun [Hres [Er2 _]]]]]].
  exists res, r2, st'. split; [exact Hrun|]. split; [exact Hres|].
  intro Hvar. rewrite Er2. simpl.
  rewrite Qeq_bool_false by exact Hvar. simpl.
  rewrite (ss_resid_of_zero res Hres). unfold Qdiv. ring.
Qed.


Lemma saturated_design_leaves_no_residual_witness :
  exists res r2 st',
    step1_ols_residualize Cases.fan_out at_main = (Returned (res, r2), st') /\
    Forall (fun p => snd p = 0) res /\
    (~ ss_total (map log_share Cases.fan_out) == 0 -> Float.feq r2 (Fin 1)).
Proof.
  apply (saturated_design_leaves_no_residual Cases.fan_out at_main).
  - discriminate.
  - left. simpl.
    repeat (constructor; [simpl; intuition discriminate|]). constructor.
Defined.


(** ** The normalized scores and the aggregate table *)

Lemma scores_in_unit_interval switches r :
  Float.eqb (series_max (map predicted_skill_portability switches))
            (series_min (map predicted_skill_portability switches)) = false ->
  In r (normalize switches) ->
  exists q, portability_norm r = Fin q /\ 0 <= q <= 1.
Proof.
  intros Hrange Hr.
  destruct (proper_scores switches r Hrange Hr)
    as [lo [hi [_ [_ [Hlt [[H1 H2] E]]]]]].
  exists ((port_predicted r + - lo) / (hi + - lo)). split; [exact E|].
  split; [apply Qle_shift_div_l | apply Qle_shift_div_r]; lra.
Qed.

Lemma normalize_has_row switches p :
  In p (map predicted_skill_portability switches) ->
  exists r, In r (normalize switches) /\ port_predicted r = p.
Proof.
  intro Hp. apply in_map_iff in Hp. destruct Hp as [s [<- Hs]].
  exists (mk_port (origin (obs s)) (dest (obs s)) (predicted_skill_portability s)
            (Float.div
               (Float.sub (Fin (predicted_skill_portability s))
                  (series_min (map predicted_skill_portability switches)))
               (Float.sub (series_max (map predicted_skill_portability switches))
                  (series_min (map predicted_skill_portability switches))))).
  split; [|reflexivity].
  unfold normalize. apply in_map_iff. exists s. auto.
Qed.

(** X13. When the predicted scores are not all equal, every normalized
    score is a number between 0 and 1, a pair with the smallest prediction
    gets 0 and a pair with the largest gets 1. *)
Theorem normalized_scores_span_unit_interval switches :
  Float.eqb (series_max (map predicted_skill_portability switches))
            (series_min (map predicted_skill_portability switches)) = false ->
  switches <> [] ->
  (forall r, In r (normalize switches) ->
             exists q, portability_norm r = Fin q /\ 0 <= q <= 1) /\
  (exists r q, In r (normalize switches) /\ portability_norm r = Fin q /\ q == 0) /\
  (exists r q, In r (normalize switches) /\ portability_norm r = Fin q /\ q == 1).
Proof.
  intros Hrange Hne.
  set (col := map predicted_skill_portability switches) in *.
  assert (Hcol : col <> []).
  { unfold col. destruct switches; [congruence | discriminate]. }
  destruct (series_min_spec col Hcol) as [lo [Elo [Hlo_in _]]].
  destruct (series_max_spec col Hcol) as [hi [Ehi [Hhi_in _]]].
  split; [|split].
  - intros r Hr. now apply (scores_in_unit_interval switches).
  - destruct (normalize_has_row switches lo Hlo_in) as [r [Hr Ep]].
    destruct (proper_scores switches r Hrange Hr)
      as [lo' [hi' [Elo' [Ehi' [Hlt [_ E]]]]]].
    fold col in Elo', Ehi'. rewrite Elo in Elo'. rewrite Ehi in Ehi'.
    injection Elo' as <-. injection Ehi' as <-.
    exists r. eexists. split; [exact Hr|]. split; [exact E|].
    rewrite Ep. field. lra.
  - destruct (normalize_has_row switches hi Hhi_in) as [r [Hr Ep]].
    destruct (proper_scores switches r Hrange Hr)
      as [lo' [hi' [Elo' [Ehi' [Hlt [_ E]]]]]].
    fold col in Elo', Ehi'. rewrite Elo in Elo'. rewrite Ehi in Ehi'.
    injection Elo' as <-. injection Ehi' as <-.
    exists r. eexists. split; [exact Hr|]. split; [exact E|].
    rewrite Ep. field. lra.
Qed.

Lemma normalized_scores_span_unit_interval_witness :
  (forall r, In r (normalize Sample.scored_pairs) ->
             exists q, portability_norm r = Fin q /\ 0 <= q <= 1) /\
  (exists r q, In r (normalize Sample.scored_pairs) /\
               portability_norm r = Fin q /\ q == 0) /\
  (exists r q, In r (normalize Sample.scored_pairs) /\
               portability_norm r = Fin q /\ q == 1).
Proof.
  apply (normalized_scores_span_unit_interval Sample.scored_pairs).
  - reflexivity.
  - discriminate.
Defined.

Lemma accumulate_nothing emp : accumulate emp [] = (Fin 0, 0).
Proof. reflexivity. Qed.



Lemma dict_set_nodup {V} (d : Dict.t V) k v :
  NoDup (Dict.keys d) -> NoDup (Dict.keys (Dict.set d k v)).
Proof.
  unfold Dict.keys. induction d as [|[k0 v0] rest IH]; simpl; intro Hnd.
  - constructor; [tauto | constructor].
  - inversion Hnd as [|? ? Hnot Hnd']; subst.
    destruct (k0 =? k)%Z eqn:Ek; simpl.
    + apply Z.eqb_eq in Ek. subst k0. now constructor.
    + constructor; [|now apply IH].
      intro Hin. apply (dict_set_keys rest k v k0) in Hin.
      apply Z.eqb_neq in Ek. destruct Hin as [E|Hin]; [congruence | tauto].
Qed.

Lemma agg_port_nodup emp port keys d :
  NoDup (Dict.keys d) ->
  NoDup (Dict.keys (fold_left (agg_step emp port) keys d)).
Proof.
  revert d. induction keys as [|k ks IH]; simpl; intros d Hd; [exact Hd|].
  apply IH. unfold agg_step. destruct (Qltb 0 _); [|exact Hd].
  now apply dict_set_nodup.
Qed.

(** X15. No occupation has two rows in the aggregate table. *)
Theorem aggregate_rows_are_distinct switches emp st :
  exists agg_df port st',
    compute_aggregate_portability switches emp st
      = (Returned (agg_df, port), st') /\
    NoDup (map occ2010 agg_df).
Proof.
  rewrite aggregator_returns. eexists. eexists. eexists.
  split; [reflexivity|].
  rewrite map_map. cbn [occ2010].
  apply (agg_port_nodup (emp_map emp) (normalize switches)). constructor.
Qed.

Lemma dict_get_set_same {V} (d : Dict.t V) k v dflt :
  Dict.get (Dict.set d k v) k dflt = v.
Proof.
  induction d as [|[k0 v0] rest IH]; simpl.
  - now rewrite Z.eqb_refl.
  - destruct (k0 =? k)%Z eqn:Ek; simpl.
    + now rewrite Z.eqb_refl.
    + now rewrite Ek.
Qed.

Lemma dict_get_set_other {V} (d : Dict.t V) k v k' dflt :
  k' <> k -> Dict.get (Dict.set d k v) k' dflt = Dict.get d k' dflt.
Proof.
  intro Hne. induction d as [|[k0 v0] rest IH]; simpl.
  - destruct (Z.eqb_spec k k'); [congruence | reflexivity].
  - destruct (Z.eqb_spec k0 k) as [->|Hk]; simpl.
    + destruct (Z.eqb_spec k k'); [congruence | reflexivity].
    + destruct (Z.eqb_spec k0 k'); [reflexivity | exact IH].
Qed.

Lemma dict_get_after_other_keys {V} (l : list (Z * V)) (d : Dict.t V) k dflt :
  (forall kv, In kv l -> fst kv <> k) ->
  Dict.get (fold_left (fun d kv => Dict.set d (fst kv) (snd kv)) l d) k dflt
  = Dict.get d k dflt.
Proof.
  revert d. induction l as [|x t IH]; simpl; intros d H; [reflexivity|].
  rewrite IH by (intros kv Hkv; apply H; now right).
  apply dict_get_set_other. intro E. apply (H x (or_introl eq_refl)). congruence.
Qed.

(** X16. The employment figure used for a destination is the one of the
    last row of the employment table for that occupation, and 0 for an
    occupation the table does not list. *)
Theorem employment_lookup_takes_last_row earlier later k v :
  (forall e, In e later -> emp_occ e <> k) ->
  Dict.get (emp_map (earlier ++ mk_emp k v :: later)) k 0 = v /\
  (forall k', (forall e, In e (earlier ++ mk_emp k v :: later) -> emp_occ e <> k') ->
              Dict.get (emp_map (earlier ++ mk_emp k v :: later)) k' 0 = 0).
Proof.
  intro Hlater. split.
  - unfold emp_map, Dict.of_pairs.
    rewrite map_app, fold_left_app. cbn [map fold_left fst snd emp_occ emp_pre].
    rewrite dict_get_after_other_keys.
    + apply dict_get_set_same.
    + intros kv Hkv. apply in_map_iff in Hkv. destruct Hkv as [e [<- He]].
      simpl. now apply Hlater.
  - intros k' Hnone. unfold emp_map, Dict.of_pairs.
    rewrite dict_get_after_other_keys; [reflexivity|].
    intros kv Hkv. apply in_map_iff in Hkv. destruct Hkv as [e [<- He]].
    simpl. now apply Hnone.
Qed.

Lemma employment_lookup_takes_last_row_witness :
  Dict.get (emp_map ([mk_emp 2 5000; mk_emp 3 1000] ++ mk_emp 2 4000 :: [mk_emp 5 10]))
           2 0 = 4000.
Proof.
  refine (proj1 (employment_lookup_takes_last_row
                   [mk_emp 2 5000; mk_emp 3 1000] [mk_emp 5 10] 2 4000 _)).
  intros e [<-|[]]. discriminate.
Defined.

(** ** The two summaries of an origin *)

Lemma fold_add_fin (qs : list Q) (a : Q) :
  fold_left Float.add (map Fin qs) (Fin a) = Fin (fold_left Qplus qs a).
Proof.
  revert a. induction qs as [|q t IH]; intro a; simpl; [reflexivity|]. apply IH.
Qed.

Lemma fold_plus_qsum (qs : list Q) (a : Q) :
  fold_left Qplus qs a == a + qsum qs.
Proof.
  revert a. induction qs as [|q t IH]; intro a; simpl; [ring|].
  rewrite IH. ring.
Qed.

Lemma filter_present_fin (qs : list Q) :
  filter (fun x => match x with NaN => false | _ => true end) (map Fin qs)
  = map Fin qs.
Proof.
  induction qs as [|q t IH]; simpl; [reflexivity | now rewrite IH].
Qed.

(** The group mean of a column of numbers. *)
Lemma nan_mean_fin (qs : list Q) :
  qs <> [] ->
  exists m, nan_mean (map Fin qs) = Fin m /\ m == qsum qs / qlen qs.
Proof.
  intro Hne. unfold nan_mean. rewrite filter_present_fin.
  destruct qs as [|q t]; [congruence|].
  assert (Hn : 0 < qlen (q :: t)) by (apply qlen_pos; discriminate).
  cbn [map].
  change (Fin q :: map Fin t) with (map Fin (q :: t)).
  rewrite fold_add_fin, qlen_map. unfold Float.div.
  rewrite Qeq_bool_false by lra.
  eexists. split; [reflexivity|].
  rewrite fold_plus_qsum. field. lra.
Qed.


(** The scores of [port], as numbers. *)
Lemma row_scores switches :
  Float.eqb (series_max (map predicted_skill_portability switches))
            (series_min (map predicted_skill_portability switches)) = false ->
  exists score : port_row -> Q,
    (forall r, In r (normalize switches) -> portability_norm r = Fin (score r)) /\
    (forall r, In r (normalize switches) -> 0 <= score r <= 1).
Proof.
  intro Hrange.
  exists (fun r =>
            match series_min (map predicted_skill_portability switches),
                  series_max (map predicted_skill_portability switches) with
            | Fin lo, Fin hi => (port_predicted r + - lo) / (hi + - lo)
            | _, _ => 0
            end).
  split; intros r Hr;
    destruct (proper_scores switches r Hrange Hr)
      as [lo [hi [Elo [Ehi [Hlt [[H1 H2] E]]]]]]; rewrite Elo, Ehi.
  - exact E.
  - split; [apply Qle_shift_div_l | apply Qle_shift_div_r]; lra.
Qed.


(** X18. When the predicted scores are not all equal and no employment
    figure is negative, both summaries of every row of the aggregate table
    are numbers between 0 and 1. *)
Theorem both_summaries_in_unit_interval
    switches emp agg_df port_out row st st' :
  Float.eqb (series_max (map predicted_skill_portability switches))
            (series_min (map predicted_skill_portability switches)) = false ->
  (forall e, In e emp -> 0 <= emp_pre e) ->
  compute_aggregate_portability switches emp st
    = (Returned (agg_df, port_out), st') ->
  In row agg_df ->
  exists a m,
    aggregate_portability row = Fin a /\ 0 <= a <= 1 /\
    mean_pairwise_portability row = Fin m /\ 0 <= m <= 1.
Proof.
  intros Hrange Hemp Hrun Hrow.
  rewrite aggregator_returns in Hrun. injection Hrun as <- _ _.
  set (port := normalize switches) in *.
  set (o := occ2010 row).
  set (rows := rows_of_origin port o).
  destruct (row_scores switches Hrange) as [score [Hscore Hunit]].
  fold port in Hscore, Hunit.
  assert (Hin : forall r, In r rows -> In r port).
  { intros r Hr. apply filter_In in Hr. tauto. }
  pose proof (agg_df_rows (emp_map emp) port row Hrow) as [Hpos Eagg].
  apply in_map_iff in Hrow. destruct Hrow as [[k v] [Erow _]].
  assert (Emean : mean_pairwise_portability row = mean_port port o).
  { unfold o. rewrite <- Erow. reflexivity. }
  fold o in Hpos, Eagg. unfold weighted_mean, total_weight in *.
  fold rows in Hpos, Eagg.
  destruct (accumulate_between (emp_map emp) 0 1 rows 0 0
              (emp_map_nonneg emp Hemp)) as [wp [Ewp [Htw Hwp]]];
    [|lra|lra|].
  { intros r Hr. exists (score r). split; [apply Hscore | apply Hunit]; auto. }
  fold (accumulate (emp_map emp) rows) in Ewp, Htw, Hwp.
  set (tw := snd (accumulate (emp_map emp) rows)) in *.
  assert (Hne : rows <> []).
  { intro E. unfold tw in Hpos. rewrite E in Hpos. simpl in Hpos. lra. }
  assert (Hn : 0 < qlen rows) by now apply qlen_pos.
  destruct (nan_mean_fin (map score rows)) as [m [Em Hm]].
  { destruct rows; [congruence | discriminate]. }
  exists (wp / tw), m. split; [|split; [|split]].
  - rewrite Eagg, Ewp. simpl. now rewrite Qeq_bool_false by lra.
  - split; [apply Qle_shift_div_l | apply Qle_shift_div_r]; lra.
  - rewrite Emean. unfold mean_port. fold rows.
    rewrite (map_ext_in portability_norm (fun r => Fin (score r)) rows)
      by (intros r Hr; apply Hscore; auto).
    rewrite <- (map_map score Fin). exact Em.
  - rewrite Hm, qlen_map.
    assert (H0 : 0 <= qsum (map score rows)).
    { apply qsum_map_nonneg. intros r Hr. apply Hunit. auto. }
    assert (H1 : qsum (map score rows) <= qlen rows * 1).
    { rewrite <- qsum_map_const. apply qsum_map_le. intros r Hr. apply Hunit. auto. }
    split; [apply Qle_shift_div_l | apply Qle_shift_div_r]; lra.
Qed.


Lemma both_summaries_in_unit_interval_witness :
  exists a m,
    aggregate_portability (Cases.first_row Sample.scored_pairs Sample.emp)
      = Fin a /\ 0 <= a <= 1 /\
    mean_pairwise_portability (Cases.first_row Sample.scored_pairs Sample.emp)
      = Fin m /\ 0 <= m <= 1.
Proof.
  eapply (both_summaries_in_unit_interval Sample.scored_pairs Sample.emp
            _ _ (Cases.first_row Sample.scored_pairs Sample.emp) at_main _).
  - reflexivity.
  - intros e He. repeat (destruct He as [<-|He]; [simpl; lra|]). contradiction.
  - apply aggregator_returns.
  - vm_compute. tauto.
Defined.

(** ** Step 2 and the whole run *)

Lemma returned_labels_present ln skills switches stayers p :
  In p (regression_rows ln skills switches stayers) ->
  isin (skill_occs skills) (origin p) = true /\
  isin (skill_occs skills) (dest p) = true.
Proof.
  intro H.
  destruct (returned_row_inv ln _ _ _ _ H) as [r [s [Hr [_ [-> _]]]]].
  destruct (merged_row_inv _ _ _ _ Hr) as [_ [_ [_ [Ho Hd]]]].
  simpl. auto.
Qed.

Lemma skills_loc_found skills k :
  isin (skill_occs skills) k = true ->
  exists r, In r skills /\ skill_occ r = k /\
            forall st, skills_loc skills k st = (Returned (skill_values r), st).
Proof.
  unfold skills_loc, isin, skill_occs. intro H.
  destruct (find (fun r => (skill_occ r =? k)%Z) skills) as [r|] eqn:E.
  - apply find_some in E. destruct E as [Hin Hk]. apply Z.eqb_eq in Hk.
    exists r. auto.
  - apply existsb_exists in H. destruct H as [x [Hx Ex]].
    apply in_map_iff in Hx. destruct Hx as [r [Er Hr]].
    pose proof (find_none _ _ E r Hr) as Hn. simpl in Hn.
    apply Z.eqb_eq in Ex. rewrite <- Ex in Er.
    rewrite Er, Z.eqb_refl in Hn. discriminate.
Qed.

Lemma skills_loc_missing skills k st :
  isin (skill_occs skills) k = false ->
  skills_loc skills k st = (Raised "KeyError", st).
Proof.
  unfold skills_loc, isin, skill_occs. intro H.
  destruct (find (fun r => (skill_occ r =? k)%Z) skills) as [r|] eqn:E;
    [|reflexivity].
  apply find_some in E. destruct E as [Hin Hk]. apply Z.eqb_eq in Hk.
  assert (Ht : existsb (Z.eqb k) (map skill_occ skills) = true).
  { apply existsb_exists. exists (skill_occ r). split.
    - now apply in_map.
    - rewrite Hk. apply Z.eqb_refl. }
  congruence.
Qed.

(** The labels of a frame are looked up one by one, without touching the
    state: either every label is in the index and the profiles come back in
    order, or the lookup raises [KeyError]. *)
Lemma lookups_return {A} skills (g : A -> Z) (l : list A) :
  (forall x, In x l -> isin (skill_occs skills) (g x) = true) ->
  exists vs,
    (forall st, py_map (fun x => skills_loc skills (g x)) l st
                = (Returned vs, st)) /\
    Forall2 (fun x v => In (mk_skill (g x) v) skills) l vs.
Proof.
  induction l as [|x t IH]; intro H.
  - exists []. split; [reflexivity | constructor].
  - destruct IH as [vs [Hrun Hall]]; [intros y Hy; apply H; now right|].
    destruct (skills_loc_found skills (g x) (H x (or_introl eq_refl)))
      as [r [Hr [Ek Hloc]]].
    exists (skill_values r :: vs). split.
    + intro st. cbn [py_map]. unfold Py.bind. rewrite Hloc, Hrun. reflexivity.
    + constructor; [|exact Hall]. rewrite <- Ek. now destruct r.
Qed.

Lemma lookups_raise {A} skills (g : A -> Z) (l : list A) st :
  (exists x, In x l /\ isin (skill_occs skills) (g x) = false) ->
  py_map (fun x => skills_loc skills (g x)) l st = (Raised "KeyError", st).
Proof.
  induction l as [|x t IH]; intros [y [Hy Hmiss]]; [contradiction|].
  cbn [py_map]. unfold Py.bind.
  destruct (isin (skill_occs skills) (g x)) eqn:E.
  - destruct (skills_loc_found skills (g x) E) as [r [_ [_ Hloc]]].
    rewrite Hloc. destruct Hy as [->|Hy]; [congruence|].
    rewrite IH; [reflexivity|]. exists y. auto.
  - now rewrite skills_loc_missing.
Qed.

Lemma vec_sub_length a b : length (vec_sub a b) = Nat.min (length a) (length b).
Proof. unfold vec_sub. now rewrite length_map, length_combine. Qed.

(** When every label of the frame is in the skill index, step 2 is the
    forest applied to one feature row per pair. *)
Lemma step2_runs forest skills (switches : list (pair_obs * Q)) :
  (forall p, In p switches ->
             isin (skill_occs skills) (origin (fst p)) = true /\
             isin (skill_occs skills) (dest (fst p)) = true) ->
  exists X,
    Forall2 (fun p x =>
               exists so sd,
                 In (mk_skill (origin (fst p)) so) skills /\
                 In (mk_skill (dest (fst p)) sd) skills /\
                 x = so ++ sd ++ vec_sub so sd) switches X /\
    forall st,
      step2_random_forest forest switches skills st
      = (fitted <- forest X (map snd switches) ;;
         Py.ret (map (fun p => mk_scored (fst (fst p)) (snd (fst p)) (snd p))
                     (combine switches (fst fitted)),
                 snd fitted))%py (snd (Py.print banner_step2 st)).
Proof.
  intro H.
  destruct (lookups_return skills (fun p : pair_obs * Q => origin (fst p)) switches)
    as [os [Hos Fo]]; [intros x Hx; apply (H x Hx)|].
  destruct (lookups_return skills (fun p : pair_obs * Q => dest (fst p)) switches)
    as [ds [Hds Fd]]; [intros x Hx; apply (H x Hx)|].
  exists (map (fun p => fst p ++ snd p ++ vec_sub (fst p) (snd p))
              (combine os ds)).
  split.
  - clear Hos Hds H. revert ds Fd.
    induction Fo as [|p so t os' Hp Ft IH]; intros ds Fd.
    + inversion Fd. constructor.
    + inversion Fd as [|p' sd t' ds' Hd Ft']; subst. cbn [combine map].
      constructor; [|now apply IH].
      exists so, sd. auto.
  - intro st. unfold step2_random_forest.
    unfold Py.bind at 1. cbn [Py.print fst snd].
    unfold Py.bind at 1. rewrite Hos.
    unfold Py.bind at 1. rewrite Hds. reflexivity.
Qed.

(** X19. On the frame of the builder, with residuals attached, no skill
    lookup of step 2 fails: the forest is called with one feature row per
    pair, made of the origin profile, the destination profile and their
    difference, hence of three times the profile length, and with the
    residuals as target; step 2 then returns or raises as the forest does. *)
Theorem learner_gets_three_blocks_per_pair
    ln forest skills switches stayers (fitted : list (pair_obs * Q)) D :
  map fst fitted = regression_rows ln skills switches stayers ->
  (forall s, In s skills -> length (skill_values s) = D) ->
  exists X,
    Forall2 (fun p x =>
               exists so sd,
                 In (mk_skill (origin (fst p)) so) skills /\
                 In (mk_skill (dest (fst p)) sd) skills /\
                 x = so ++ sd ++ vec_sub so sd /\
                 length x = (3 * D)%nat) fitted X /\
    forall st,
      step2_random_forest forest fitted skills st
      = (learned <- forest X (map snd fitted) ;;
         Py.ret (map (fun p => mk_scored (fst (fst p)) (snd (fst p)) (snd p))
                     (combine fitted (fst learned)),
                 snd learned))%py (snd (Py.print banner_step2 st)).
Proof.
  intros Hrows HD.
  destruct (step2_runs forest skills fitted) as [X [HX Hrun]].
  { intros p Hp.
    apply (returned_labels_present ln skills switches stayers).
    rewrite <- Hrows. now apply in_map. }
  exists X. split; [|exact Hrun].
  clear Hrun Hrows.
  induction HX as [|p x t X' [so [sd [Ho [Hd Ex]]]] _ IH]; constructor;
    [|exact IH].
  exists so, sd. repeat split; auto.
  pose proof (HD _ Ho) as Lo. pose proof (HD _ Hd) as Ld. simpl in Lo, Ld.
  rewrite Ex, !length_app, vec_sub_length, Lo, Ld. lia.
Qed.

Lemma learner_gets_three_blocks_per_pair_witness :
  exists X,
    Forall2 (fun p x =>
               exists so sd,
                 In (mk_skill (origin (fst p)) so) Sample.skills /\
                 In (mk_skill (dest (fst p)) sd) Sample.skills /\
                 x = so ++ sd ++ vec_sub so sd /\
                 length x = (3 * 2)%nat) Cases.fitted X /\
    forall st,
      step2_random_forest Sample.forest Cases.fitted Sample.skills st
      = (learned <- Sample.forest X (map snd Cases.fitted) ;;
         Py.ret (map (fun p => mk_scored (fst (fst p)) (snd (fst p)) (snd p))
                     (combine Cases.fitted (fst learned)),
                 snd learned))%py (snd (Py.print banner_step2 st)).
Proof.
  apply (learner_gets_three_blocks_per_pair Sample.ln Sample.forest
           Sample.skills Sample.switches Sample.stayers Cases.fitted 2).
  - unfold Cases.fitted. rewrite map_map. apply map_id.
  - intros s Hs. repeat (destruct Hs as [<-|Hs]; [reflexivity|]). contradiction.
Defined.

(** X20. When some pair of the frame has an origin or a destination that
    is not in the skill index, step 2 raises [KeyError] right after its
    banner, whatever the forest is: the forest is not called. *)
Theorem missing_profile_raises_key_error
    forest skills (fitted : list (pair_obs * Q)) st :
  (exists p, In p fitted /\
             (isin (skill_occs skills) (origin (fst p)) = false \/
              isin (skill_occs skills) (dest (fst p)) = false)) ->
  step2_random_forest forest fitted skills st
  = (Raised "KeyError", snd (Py.print banner_step2 st)).
Proof.
  intros [p [Hp Hmiss]]. unfold step2_random_forest.
  unfold Py.bind at 1. cbn [Py.print fst snd].
  unfold Py.bind at 1.
  destruct (existsb (fun q : pair_obs * Q =>
                       negb (isin (skill_occs skills) (origin (fst q)))) fitted)
    eqn:E.
  - apply existsb_exists in E. destruct E as [q [Hq Eq]].
    apply negb_true_iff in Eq.
    rewrite (lookups_raise skills (fun q : pair_obs * Q => origin (fst q)));
      [reflexivity|].
    exists q. auto.
  - assert (Hall : forall q, In q fitted ->
                     isin (skill_occs skills) (origin (fst q)) = true).
    { intros q Hq.
      destruct (isin (skill_occs skills) (origin (fst q))) eqn:Eq;
        [reflexivity|].
      assert (Ht : existsb (fun q : pair_obs * Q =>
                       negb (isin (skill_occs skills) (origin (fst q)))) fitted
                   = true).
      { apply existsb_exists. exists q. split; [exact Hq|]. now rewrite Eq. }
      congruence. }
    destruct (lookups_return skills (fun q : pair_obs * Q => origin (fst q))
                fitted Hall) as [os [Hos _]].
    rewrite Hos. unfold Py.bind at 1.
    destruct Hmiss as [Ho|Hd]; [rewrite (Hall p Hp) in Ho; discriminate|].
    rewrite (lookups_raise skills (fun q : pair_obs * Q => dest (fst q)));
      [reflexivity|].
    exists p. auto.
Qed.

Lemma missing_profile_raises_key_error_witness :
  step2_random_forest Sample.forest [(Sample.observed 1 2 0, 0)]
    Sample.skills_disjoint at_main
  = (Raised "KeyError", snd (Py.print banner_step2 at_main)).
Proof.
  apply (missing_profile_raises_key_error Sample.forest Sample.skills_disjoint
           [(Sample.observed 1 2 0, 0)] at_main).
  exists (Sample.observed 1 2 0, 0). split; [now left | left; reflexivity].
Defined.

Lemma builder_runs ln skills switches stayers st :
  build_switching_regression_data ln skills switches stayers st
  = (Returned (regression_rows ln skills switches stayers, skills),
     snd (Py.print banner_build st)).
Proof. reflexivity. Qed.

(** The run up to the call of the forest: the state in which the forest
    is called has the three banners printed and no warning recorded. *)
Lemma main_reaches_forest ln forest skills switches stayers emp :
  regression_rows ln skills switches stayers <> [] ->
  exists fitted r2 X st2,
    map fst fitted = regression_rows ln skills switches stayers /\
    stdout st2 = [banner_build; banner_step1; banner_step2] /\
    shown_warnings st2 = [] /\
    main ln forest skills switches stayers emp at_main
    = match forest X (map snd fitted) st2 with
      | (Returned learned, st3) =>
          (aggregated <- compute_aggregate_portability
                           (map (fun p => mk_scored (fst (fst p)) (snd (fst p))
                                                    (snd p))
                                (combine fitted (fst learned))) emp ;;
           Py.ret (mk_outputs
                     (map (fun p => mk_scored (fst (fst p)) (snd (fst p)) (snd p))
                          (combine fitted (fst learned)))
                     (fst aggregated) (snd learned) r2))%py st3
      | (Raised e, st3) => (Raised e, st3)
      end.
Proof.
  intro Hne.
  destruct (step1_returns (regression_rows ln skills switches stayers)
              (snd (Py.print banner_build at_main)) Hne)
    as [fitted [r2 [st1 [Hrun1 [Hrows [Hout [Hfilter Hwarn]]]]]]].
  destruct (step2_runs forest skills fitted) as [X [_ Hrun2]].
  { intros p Hp.
    apply (returned_labels_present ln skills switches stayers).
    rewrite <- Hrows. now apply in_map. }
  exists fitted, r2, X, (snd (Py.print banner_step2 st1)).
  split; [exact Hrows|]. split; [|split].
  - cbn [Py.print snd stdout]. rewrite Hout. reflexivity.
  - cbn [Py.print snd shown_warnings]. rewrite Hwarn; reflexivity.
  - unfold main. unfold Py.bind at 1. rewrite builder_runs. cbn [fst snd].
    unfold Py.bind at 1. rewrite Hrun1. cbn [fst snd].
    unfold Py.bind at 1. rewrite Hrun2.
    unfold Py.bind.
    destruct (forest X (map snd fitted) (snd (Py.print banner_step2 st1)))
      as [[learned|e] st3]; reflexivity.
Qed.



(** X22. When the builder's frame is not empty and the forest raises, the
    run raises the same exception: the banner of the aggregator is never
    printed and nothing is written out. *)
Theorem forest_failure_stops_the_run
    ln forest skills switches stayers emp e :
  regression_rows ln skills switches stayers <> [] ->
  (forall X y st, forest X y st = (Raised e, st)) ->
  exists st',
    main ln forest skills switches stayers emp at_main = (Raised e, st') /\
    stdout st' = [banner_build; banner_step1; banner_step2].
Proof.
  intros Hne Hforest.
  destruct (main_reaches_forest ln forest skills switches stayers emp Hne)
    as [fitted [r2 [X [st2 [_ [Hout [_ Hmain]]]]]]].
  rewrite Hforest in Hmain.
  exists st2. auto.
Qed.

Lemma forest_failure_stops_the_run_witness :
  exists st',
    main Sample.ln (fun _ _ => Py.raise "ValueError") Sample.skills
         Sample.switches Sample.stayers Sample.emp at_main
    = (Raised "ValueError", st') /\
    stdout st' = [banner_build; banner_step1; banner_step2].
Proof.
  apply (forest_failure_stops_the_run Sample.ln
           (fun _ _ => Py.raise "ValueError") Sample.skills
           Sample.switches Sample.stayers Sample.emp "ValueError").
  - discriminate.
  - reflexivity.
Defined.
